(** * FiFoFile: reading and writing lines in named pipes

    A shallow embedding of [fifofile/fifofile.py] (class [FiFoFile]) and
    the properties of its construction, of its FIFO check and of the two
    polling generators [read] and [readline].

    Python values are modelled as follows.
    - [str] is a list of Unicode code points;
    - an exception is a value of [exception], a call that may raise
      returns an [outcome];
    - the file system the constructor talks to is a finite map from paths
      to [st_mode] words;
    - the [select.epoll] object of a generator is the finite set of the
      descriptors registered with it;
    - a [float] is a rational, an infinity or not-a-number;
    - a generator is a machine that is blocked in an operating-system
      call, suspended at its [yield], or finished. *)

From Stdlib Require Import ZArith NArith QArith Qround List String Ascii Bool Lia.
From stdpp Require Import base tactics option list gmap.
Import ListNotations.

Local Open Scope Z_scope.

(** ** Python strings *)

Abbreviation str := (list N).

(** A literal: the code points of an ASCII text. *)
Definition py (s : string) : str := map N_of_ascii (list_ascii_of_string s).

(** [str.isspace] on one character, the table of CPython's
    [_PyUnicode_IsWhitespace]. *)
Definition isspace (c : N) : bool :=
  ((9 <=? c) && (c <=? 13))%N
  || ((28 <=? c) && (c <=? 32))%N
  || (c =? 133)%N || (c =? 160)%N || (c =? 5760)%N
  || ((8192 <=? c) && (c <=? 8202))%N
  || (c =? 8232)%N || (c =? 8233)%N || (c =? 8239)%N
  || (c =? 8287)%N || (c =? 12288)%N.

Fixpoint lstrip (s : str) : str :=
  match s with
  | [] => []
  | c :: rest => if isspace c then lstrip rest else s
  end.

Definition rstrip (s : str) : str := rev (lstrip (rev s)).

(** [s.strip()]: leading and trailing whitespace removed. *)
Definition strip (s : str) : str := rstrip (lstrip s).

Definition LF : N := 10%N.

(** ** Exceptions *)

Inductive errno : Type :=
| ENOENT   (* FileNotFoundError *)
| EACCES   (* PermissionError: permission denied *)
| EPERM    (* PermissionError: operation not permitted *)
| EEXIST   (* FileExistsError *)
| ENOTDIR  (* NotADirectoryError *)
| EROFS    (* read-only file system *)
| ENOSPC.  (* no space left on device *)

(** The messages [FiFoFileError] is raised with, one per f-string of the
    module. *)
Inductive message : Type :=
| is_not_a_valid_fifo_file (path : str)
| Invalid_create_mode (create_mode : str)
| already_exists (path : str)
| Failed_to_create_fifo_file (path : str) (ERR : exception)
| Error_opening_fifo_file (path : str) (ERR : exception)
| Error_writing_to_fifo_file (path : str) (ERR : exception)
with exception : Type :=
| FiFoFileError (msg : message)
| OSError (e : errno)
| OverflowError
| ValueError.

Inductive outcome (A : Type) : Type :=
| Returns (a : A)
| Raises (e : exception).
Arguments Returns {A} a.
Arguments Raises {A} e.

(** ** The file system seen by [os.stat], [os.mkfifo] and [os.chmod] *)

Record filesystem : Type := {
  nodes : gmap str Z;      (* path |-> st_mode of the node there *)
  denied : gset str;       (* paths the process is refused access to *)
  refused : gmap str errno;
    (* free paths where no node can be made, with the reason: ENOENT for
       a missing parent directory, ENOTDIR, EACCES, EROFS, ENOSPC *)
  umask : Z
}.

Definition S_IFMT : Z := 61440.    (* 0o170000 *)
Definition S_IFIFO : Z := 4096.    (* 0o010000 *)
Definition S_IFREG : Z := 32768.   (* 0o100000 *)

Definition S_ISFIFO (mode : Z) : bool := Z.land mode S_IFMT =? S_IFIFO.

Definition os_stat (fs : filesystem) (path : str) : outcome Z :=
  if decide (path ∈ denied fs) then Raises (OSError EACCES)
  else match nodes fs !! path with
       | Some st_mode => Returns st_mode
       | None => Raises (OSError ENOENT)
       end.

(** [os.mkfifo(path)], with its default mode [0o666] cut by the umask. *)
Definition os_mkfifo (fs : filesystem) (path : str) : outcome filesystem :=
  if decide (path ∈ denied fs) then Raises (OSError EACCES)
  else match nodes fs !! path with
       | Some _ => Raises (OSError EEXIST)
       | None =>
           match refused fs !! path with
           | Some ERR => Raises (OSError ERR)
           | None =>
               let st_mode := Z.lor S_IFIFO (Z.land 438 (Z.lnot (umask fs))) in
               Returns {| nodes := <[path := st_mode]> (nodes fs);
                          denied := denied fs; refused := refused fs;
                          umask := umask fs |}
           end
       end.

(** [os.chmod(path, mode)]: the mode is passed as a C [int], the kernel
    keeps its twelve permission bits. *)
Definition os_chmod (fs : filesystem) (path : str) (mode : Z) : outcome filesystem :=
  if negb ((-2147483648 <=? mode) && (mode <=? 2147483647)) then Raises OverflowError
  else if decide (path ∈ denied fs) then Raises (OSError EACCES)
  else match nodes fs !! path with
       | None => Raises (OSError ENOENT)
       | Some old =>
           let st_mode := Z.lor (Z.land old S_IFMT) (Z.land mode 4095) in
           Returns {| nodes := <[path := st_mode]> (nodes fs);
                      denied := denied fs; refused := refused fs;
                      umask := umask fs |}
       end.

Definition os_path_exists (fs : filesystem) (path : str) : bool :=
  match os_stat fs path with Returns _ => true | Raises _ => false end.

(** ** Floats *)

(** A Python [float]: a rational, an infinity, or not a number. *)
Inductive float : Type :=
| finite (q : Q)
| infinity (negative : bool)
| nan.

Definition one_second : float := finite 1.

Definition INT_MIN : Z := -2147483648.
Definition INT_MAX : Z := 2147483647.

(** The timeout in milliseconds as [epoll.poll] computes it: seconds to
    nanoseconds rounded away from zero, nanoseconds to milliseconds
    rounded up. *)
Definition milliseconds (q : Q) : Z :=
  let ns := if Qle_bool 0 q then Qceiling (q * 1000000000)
            else Qfloor (q * 1000000000) in
  - ((- ns) / 1000000).

(** What [epoll.poll(timeout)] raises before it waits: [ValueError] for
    not-a-number, [OverflowError] for an infinity and for a timeout whose
    milliseconds do not fit a C int.  A negative timeout waits for ever. *)
Definition poll_error (timeout : float) : option exception :=
  match timeout with
  | nan => Some ValueError
  | infinity _ => Some OverflowError
  | finite q =>
      let ms := milliseconds q in
      if (INT_MIN <=? ms) && (ms <=? INT_MAX) then None else Some OverflowError
  end.

(** ** The object *)

Record FiFoFile : Type := {
  stop_event : bool;          (* self.__stop_event, a threading.Event *)
  fifo_file_path : str;
  polling_timeout : float;
  fifo : option Z             (* self.__fifo, unset until _open_fifo runs *)
}.

Section Construction.

(** The builtin [int(text, 8)]; [None] when it raises [ValueError]. *)
Variable int8 : str -> option Z.

(** [FiFoFile.__init__] (lines 62-76).  The result of [stat.S_ISFIFO]
    is computed and dropped: only an exception of [os.stat] reaches the
    handler. *)
Definition __init__ (fs : filesystem) (fifo_file_path : str)
    (create_if_not_exists : bool) (create_mode : str) (polling_timeout : float)
    : outcome (FiFoFile * filesystem) :=
  let self := {| stop_event := false; fifo_file_path := fifo_file_path;
                 polling_timeout := polling_timeout; fifo := None |} in
  match os_stat fs fifo_file_path with
  | Returns st_mode =>
      let _ := S_ISFIFO st_mode in
      Returns (self, fs)
  | Raises _ =>
      if negb create_if_not_exists then
        Raises (FiFoFileError (is_not_a_valid_fifo_file fifo_file_path))
      else
        match int8 create_mode with
        | None => Raises (FiFoFileError (Invalid_create_mode create_mode))
        | Some mode =>
            match os_mkfifo fs fifo_file_path with
            | Raises e => Raises e
            | Returns fs1 =>
                match os_chmod fs1 fifo_file_path mode with
                | Raises e => Raises e
                | Returns fs2 => Returns (self, fs2)
                end
            end
        end
  end.

(** [FiFoFile.create_fifo_file] (lines 91-106), the static sibling of
    the creation done by the constructor. *)
Definition create_fifo_file (fs : filesystem) (fifo_file_path : str)
    (create_mode : str) (raise_if_exists : bool) : outcome (bool * filesystem) :=
  match int8 create_mode with
  | None => Raises (FiFoFileError (Invalid_create_mode create_mode))
  | Some mode =>
      if raise_if_exists && os_path_exists fs fifo_file_path then
        Raises (FiFoFileError (already_exists fifo_file_path))
      else if os_path_exists fs fifo_file_path then Returns (false, fs)
      else
        match os_mkfifo fs fifo_file_path with
        | Raises ERR =>
            Raises (FiFoFileError (Failed_to_create_fifo_file fifo_file_path ERR))
        | Returns fs1 =>
            match os_chmod fs1 fifo_file_path mode with
            | Raises ERR =>
                Raises (FiFoFileError (Failed_to_create_fifo_file fifo_file_path ERR))
            | Returns fs2 => Returns (true, fs2)
            end
        end
  end.

End Construction.

(** [FiFoFile.is_fifo_file] (lines 133-137): [True] unless [os.stat]
    raises; the value of [stat.S_ISFIFO] is not looked at. *)
Definition is_fifo_file (fs : filesystem) (fifo_file_path : str) : bool :=
  match os_stat fs fifo_file_path with
  | Returns st_mode => let _ := S_ISFIFO st_mode in true
  | Raises _ => false
  end.

(** [FiFoFile.stop_reading] (line 141). *)
Definition stop_reading (self : FiFoFile) : FiFoFile :=
  {| stop_event := true; fifo_file_path := fifo_file_path self;
     polling_timeout := polling_timeout self; fifo := fifo self |}.

(** ** The poller and the generators *)

Definition EPOLLIN : Z := 1.
Definition EPOLLPRI : Z := 2.
Definition EPOLLERR : Z := 8.
Definition EPOLLHUP : Z := 16.
Definition EPOLLMSG : Z := 1024.

(** The interest set of lines 167 and 207. *)
Definition read_only : Z :=
  Z.lor (Z.lor (Z.lor (Z.lor EPOLLIN EPOLLPRI) EPOLLHUP) EPOLLERR) EPOLLMSG.

(** Truth value of an [int] in a condition. *)
Definition truthy (n : Z) : bool := negb (n =? 0).

Definition readable (event : Z) : bool := truthy (Z.land event (Z.lor EPOLLIN EPOLLPRI)).
Definition hangup (event : Z) : bool := truthy (Z.land event EPOLLHUP).

(** What [open] hands back: the descriptor, and whether the file behind
    it can be polled (a pipe can, a regular file cannot). *)
Record file : Type := { fileno : Z; pollable : bool }.

Inductive open_result : Type :=
| open_ok (f : file)
| open_fails (ERR : errno).

(** [select.epoll]: the set of registered descriptors. *)
Definition register (poller : gset Z) (f : file) : outcome (gset Z) :=
  if negb (pollable f) then Raises (OSError EPERM)
  else if decide (fileno f ∈ poller) then Raises (OSError EEXIST)
  else Returns ({[fileno f]} ∪ poller).

Definition unregister (poller : gset Z) (fd : Z) : outcome (gset Z) :=
  if decide (fd ∈ poller) then Returns (poller ∖ {[fd]})
  else Raises (OSError ENOENT).

(** [FIFO.close()]: closing a descriptor also takes it out of every epoll
    set.  Closing a file that was opened for reading is taken not to
    raise. *)
Definition close (poller : gset Z) (fd : Z) : gset Z := poller ∖ {[fd]}.

(** What a call [poller.poll(timeout)] that was accepted comes back with:
    of the descriptors with something pending ([ready], descriptor |->
    event mask) the registered ones are reported, each once; nothing
    pending is a timeout.  What the call raises when the timeout is not
    accepted is [poll_error], applied by [calling_poll]. *)
Definition poll (poller : gset Z) (ready : gmap Z Z) : list (Z * Z) :=
  map_to_list (filter (λ p : Z * Z, p.1 ∈ poller) ready).

(** The two generator methods. *)
Inductive generator : Type :=
| readline (strip_line : bool)
| read (size : Z).

Definition read_line_stripped (fifo_line : str) : str := strip fifo_line.

(** The local [read_line] of [readline] after line 210. *)
Definition read_line (strip_line : bool) (fifo_line : str) : str :=
  if strip_line then read_line_stripped fifo_line else fifo_line.

(** The value handed to [yield] (lines 183 and 225). *)
Definition yielded_item (g : generator) (fifo_line : str) : str :=
  match g with
  | readline strip_line => read_line strip_line fifo_line
  | read _ => fifo_line
  end.

(** What a generator does, in order. *)
Inductive action : Type :=
| Open (path mode : str) (r : open_result)
| Register (fd eventmask : Z) (r : outcome (gset Z))
| Poll (timeout : float) (events : list (Z * Z))
| PollFails (timeout : float) (e : exception)
| IsSet (flag : bool)
| Unregister (fd : Z) (r : outcome (gset Z))
| Close (fd : Z)
| ReadFrom (fd : Z) (g : generator) (r : outcome str)
| Sleep (seconds : Z)
| Yield (item : str)
| Return
| Raise (e : exception).

(** Where a generator stands: not started, blocked in a call of the
    operating system, suspended at its [yield], or finished.  [FIFO] and
    [poller] are its locals, [events] what the [for] loop has still to
    visit. *)
Inductive frame : Type :=
| Created
| Opening
| Polling (FIFO : Z) (poller : gset Z)
| Reading (FIFO : Z) (poller : gset Z) (events : list (Z * Z))
| Yielded (FIFO : Z) (poller : gset Z) (events : list (Z * Z))
| Reopening (poller : gset Z) (events : list (Z * Z))
| Returned
| Raised (e : exception).

Record machine : Type := { self : FiFoFile; body : generator; at_ : frame }.

(** What happens to a generator: its consumer pulls, some thread calls
    [stop_reading], or the call it is blocked in comes back. *)
Inductive input : Type :=
| next
| stop
| opened (r : open_result)
| polled (ready : gmap Z Z)
| got (r : outcome str).

(** The assignment [self.__fifo = ...]. *)
Definition set_fifo (self : FiFoFile) (fd : Z) : FiFoFile :=
  {| stop_event := stop_event self; fifo_file_path := fifo_file_path self;
     polling_timeout := polling_timeout self; fifo := Some fd |}.

(** [FiFoFile._open_fifo] (lines 145-149). *)
Definition _open_fifo (self : FiFoFile) (fifo_file_path : str) (r : open_result)
    : outcome file * FiFoFile :=
  match r with
  | open_ok f =>
      (Returns f, set_fifo self (fileno f))
  | open_fails ERR =>
      (Raises (FiFoFileError (Error_opening_fifo_file fifo_file_path (OSError ERR))), self)
  end.

(** The body of [for fd, event in events] (lines 171-197 and 213-239),
    run until the generator blocks, yields or finishes.  [flag] is what
    [self.__stop_event.is_set()] answers. *)
Fixpoint for_events (flag : bool) (FIFO : Z) (poller : gset Z)
    (events : list (Z * Z)) : frame * list action :=
  match events with
  | [] => (Polling FIFO poller, [])
  | (fd, event) :: events' =>
      if readable event then
        if flag then
          (* try: unregister  finally: close; return *)
          (Returned, [IsSet true; Unregister FIFO (unregister poller FIFO);
                      Close FIFO; Return])
        else (Reading FIFO poller events', [IsSet false])
      else if hangup event then
        match unregister poller FIFO with
        | Raises e => (Raised e, [Unregister FIFO (Raises e); Raise e])
        | Returns poller' =>
            (Reopening (close poller' FIFO) events',
             [Unregister FIFO (Returns poller'); Close FIFO])
        end
      else for_events flag FIFO poller events'
  end.

Definition mode_r : str := py "r".

(** The call [poller.poll(self.polling_timeout)] (lines 170 and 212) that
    opens every round of the loop: a generator that would block in it
    dies of the exception instead if the timeout is not accepted. *)
Definition calling_poll (timeout : float) (fr : frame * list action)
    : frame * list action :=
  match fr.1 with
  | Polling _ _ =>
      match poll_error timeout with
      | Some e => (Raised e, fr.2 ++ [PollFails timeout e; Raise e])
      | None => fr
      end
  | _ => fr
  end.

Definition at_frame (m : machine) (self' : FiFoFile) (fr : frame * list action)
    (before : list action) : machine * list action :=
  let fr' := calling_poll (polling_timeout self') fr in
  ({| self := self'; body := body m; at_ := fr'.1 |}, before ++ fr'.2).

(** One step of [read] or [readline]. *)
Definition step (m : machine) (i : input) : machine * list action :=
  let path := fifo_file_path (self m) in
  let flag := stop_event (self m) in
  match i, at_ m with
  | stop, _ =>
      ({| self := stop_reading (self m); body := body m; at_ := at_ m |}, [])
  | next, Created => at_frame m (self m) (Opening, []) []
  | opened r, Opening =>
      (* lines 165-168 / 205-208 *)
      match _open_fifo (self m) path r with
      | (Raises e, self') => at_frame m self' (Raised e, [Raise e]) [Open path mode_r r]
      | (Returns f, self') =>
          match register ∅ f with
          | Raises e =>
              at_frame m self' (Raised e, [Raise e])
                [Open path mode_r r; Register (fileno f) read_only (Raises e)]
          | Returns poller =>
              at_frame m self' (Polling (fileno f) poller, [])
                [Open path mode_r r; Register (fileno f) read_only (Returns poller)]
          end
      end
  | polled ready, Polling FIFO poller =>
      let events := poll poller ready in
      at_frame m (self m) (for_events flag FIFO poller events)
        [Poll (polling_timeout (self m)) events]
  | got r, Reading FIFO poller events =>
      (* lines 179-185 / 221-227 *)
      match r with
      | Returns [] | Raises _ =>
          at_frame m (self m) (for_events flag FIFO poller events)
            [ReadFrom FIFO (body m) r]
      | Returns fifo_line =>
          at_frame m (self m) (Yielded FIFO poller events, [])
            [ReadFrom FIFO (body m) r; Yield (yielded_item (body m) fifo_line)]
      end
  | next, Yielded FIFO poller events =>
      at_frame m (self m) (for_events flag FIFO poller events) []
  | opened r, Reopening poller events =>
      (* one round of [while FIFO is False] (lines 192-197 / 234-239) *)
      match _open_fifo (self m) path r with
      | (Raises e, self') =>
          at_frame m self' (Reopening poller events, []) [Open path mode_r r; Sleep 1]
      | (Returns f, self') =>
          match register poller f with
          | Raises e =>
              at_frame m self' (for_events flag (fileno f) poller events)
                [Open path mode_r r; Register (fileno f) read_only (Raises e); Sleep 1]
          | Returns poller' =>
              at_frame m self' (for_events flag (fileno f) poller' events)
                [Open path mode_r r; Register (fileno f) read_only (Returns poller')]
          end
      end
  | _, _ => (m, [])
  end.

Fixpoint run (m : machine) (inputs : list input) : machine * list action :=
  match inputs with
  | [] => (m, [])
  | i :: inputs' =>
      let (m1, t1) := step m i in
      let (m2, t2) := run m1 inputs' in
      (m2, t1 ++ t2)
  end.

(** A fresh generator of [self]: [self.readline(...)] or [self.read(...)]. *)
Definition generate (self : FiFoFile) (g : generator) : machine :=
  {| self := self; body := g; at_ := Created |}.

(** ** Words of the specification, for comparison *)

(** "The line with only its trailing newline removed". *)
Definition without_trailing_newline (line : str) : str :=
  match rev line with
  | c :: before => if (c =? LF)%N then rev before else line
  | [] => line
  end.

(** A text that neither begins nor ends with a whitespace character. *)
Definition edge_free (text : str) : bool :=
  match text, rev text with
  | c :: _, d :: _ => negb (isspace c) && negb (isspace d)
  | _, _ => true
  end.

(** A generator of [self] that stands at [fr]. *)
Definition standing (self : FiFoFile) (g : generator) (fr : frame) : machine :=
  {| self := self; body := g; at_ := fr |}.

(** ** Reachable generators *)

(** The generator started from [self0] after [inputs]. *)
Definition after (self0 : FiFoFile) (g : generator) (inputs : list input) : machine :=
  fst (run (generate self0 g) inputs).

(** Inside the polling loop (lines 169-197 and 211-239). *)
Definition in_loop (fr : frame) : bool :=
  match fr with
  | Polling _ _ | Reading _ _ _ | Yielded _ _ _ | Reopening _ _ => true
  | _ => false
  end.

Definition finished (fr : frame) : bool :=
  match fr with
  | Returned | Raised _ => true
  | _ => false
  end.

(** The events the [for] loop goes through in the step on [i]. *)
Definition visited (m : machine) (i : input) : list (Z * Z) :=
  match i, at_ m with
  | polled ready, Polling _ poller => poll poller ready
  | got (Returns []), Reading _ _ events => events
  | got (Raises _), Reading _ _ events => events
  | next, Yielded _ _ events => events
  | opened (open_ok _), Reopening _ events => events
  | _, _ => []
  end.

(** What holds of the locals of a started generator: at most the live
    descriptor is registered, no event is left over once one has been
    taken up, and nothing is registered while the pipe is reopened. *)
Definition settled (fr : frame) : Prop :=
  match fr with
  | Polling FIFO poller => poller ⊆ {[FIFO]}
  | Reading FIFO poller events | Yielded FIFO poller events =>
      poller ⊆ {[FIFO]} /\ events = []
  | Reopening poller events => poller = ∅ /\ events = []
  | _ => True
  end.

(** The calls of [stop_reading] after the first one left out. *)
Fixpoint first_stop_only (stopped : bool) (inputs : list input) : list input :=
  match inputs with
  | [] => []
  | stop :: inputs' =>
      if stopped then first_stop_only true inputs'
      else stop :: first_stop_only true inputs'
  | i :: inputs' => i :: first_stop_only stopped inputs'
  end.

(** The rounds of the retry loop in which [open] fails. *)
Definition failed_rounds (path : str) (failures : list errno) : list action :=
  concat (map (fun ERR => [Open path mode_r (open_fails ERR); Sleep 1]) failures).

(** ** The builtin [int(text, 8)] *)

(** C's [isspace], which [PyLong_FromString] skips. *)
Definition c_isspace (c : N) : bool := (((9 <=? c) && (c <=? 13)) || (c =? 32))%N.

Fixpoint skip_spaces (s : str) : str :=
  match s with
  | [] => []
  | c :: rest => if c_isspace c then skip_spaces rest else s
  end.

Definition octal_digit (c : N) : option Z :=
  if ((48 <=? c) && (c <=? 55))%N then Some (Z.of_N c - 48) else None.

(** The digits ([long_from_binary_base]): single underscores between
    digits, the scan stops at the first other character.  The value and
    what is left of the text. *)
Fixpoint octal_digits (acc : Z) (seen after_underscore : bool) (s : str)
    : option (Z * str) :=
  let stop := if after_underscore || negb seen then None else Some (acc, s) in
  match s with
  | [] => stop
  | c :: rest =>
      if (c =? 95)%N then
        if after_underscore then None else octal_digits acc seen true rest
      else match octal_digit c with
           | Some d => octal_digits (8 * acc + d) true false rest
           | None => stop
           end
  end.

(** After the sign: the prefix [0o] or [0O] with one underscore allowed
    behind it, no underscore in front, the digits, whitespace. *)
Definition unsigned_octal (s : str) : option Z :=
  let digits :=
    match s with
    | 48%N :: o :: rest =>
        if ((o =? 111) || (o =? 79))%N then
          match rest with
          | 95%N :: rest' => rest'
          | _ => rest
          end
        else s
    | _ => s
    end in
  match digits with
  | 95%N :: _ => None
  | _ =>
      match octal_digits 0 false false digits with
      | Some (value, rest) =>
          match skip_spaces rest with
          | [] => Some value
          | _ => None
          end
      | None => None
      end
  end.

Section Int.

(** The decimal value of a character outside ASCII, from the Unicode
    table of the interpreter ([Py_UNICODE_TODECIMAL]). *)
Variable todecimal : N -> option N.

(** [_PyUnicode_TransformDecimalAndSpaceToASCII]: ASCII as it is, other
    whitespace as a blank, other decimal digits as ASCII digits; the
    first character that is neither becomes [?] and ends the text. *)
Fixpoint to_ascii (s : str) : str :=
  match s with
  | [] => []
  | c :: rest =>
      if (c <? 127)%N then c :: to_ascii rest
      else if isspace c then 32%N :: to_ascii rest
      else match todecimal c with
           | Some d => (48 + d)%N :: to_ascii rest
           | None => [63%N]
           end
  end.

(** [int(text, 8)]; [None] when it raises [ValueError]. *)
Definition int_octal (text : str) : option Z :=
  match skip_spaces (to_ascii text) with
  | 43%N :: s => unsigned_octal s
  | 45%N :: s => Z.opp <$> unsigned_octal s
  | s => unsigned_octal s
  end.

End Int.

(** A table for the examples, with the Arabic-Indic, the extended
    Arabic-Indic and the fullwidth digits.  The texts of the examples are
    ASCII and never consult it; what is proved of [int_octal] in general
    is proved for every table. *)
Definition some_digits (c : N) : option N :=
  if ((1632 <=? c) && (c <=? 1641))%N then Some (c - 1632)%N
  else if ((1776 <=? c) && (c <=? 1785))%N then Some (c - 1776)%N
  else if ((65296 <=? c) && (c <=? 65305))%N then Some (c - 65296)%N
  else None.

(** ** Data of the examples *)

Definition a_fifo : FiFoFile :=
  {| stop_event := false; fifo_file_path := py "/var/log/a_valid_fifo.fifo";
     polling_timeout := one_second; fifo := Some 3 |}.

Definition hello_world : str := py "hello world".

Definition plain_txt : str := py "/tmp/plain.txt".
Definition locked_fifo : str := py "/root/locked.fifo".
Definition orphan_fifo : str := py "/tmp/no/such/dir/my.fifo".

(** A regular file at [plain_txt], a path the process may not touch, and
    a path in a directory that is not there. *)
Definition a_filesystem : filesystem :=
  {| nodes := {[ plain_txt := Z.lor S_IFREG 420 ]};
     denied := {[ locked_fifo ]};
     refused := {[ orphan_fifo := ENOENT ]};
     umask := 18 |}.

Definition a_pipe : file := {| fileno := 3; pollable := true |}.
Definition another_pipe : file := {| fileno := 4; pollable := true |}.

Definition not_started : FiFoFile :=
  {| stop_event := false; fifo_file_path := py "/var/log/a_valid_fifo.fifo";
     polling_timeout := one_second; fifo := None |}.

(** ** Writing a line *)

Definition mode_w : str := py "w".

(** What [writeline] does, in order; [r] is [None] when the call comes
    back and the exception when it raises. *)
Inductive write_action : Type :=
| OpenToWrite (path mode : str) (r : open_result)
| Write (fd : Z) (text : str) (r : option exception)
| Flush (fd : Z) (r : option exception)
| CloseWritten (fd : Z) (r : option exception).

(** [FiFoFile.writeline] (lines 153-161).  [opening], [writing],
    [flushing] and [closing] are what [open], [FIFO.write], [FIFO.flush]
    and [FIFO.close] do when they are called. *)
Definition writeline (self : FiFoFile) (line : str) (flush : bool)
    (opening : open_result) (writing flushing closing : option exception)
    : outcome unit * FiFoFile * list write_action :=
  let path := fifo_file_path self in
  match _open_fifo self path opening with
  | (Raises e, self') => (Raises e, self', [OpenToWrite path mode_w opening])
  | (Returns FIFO, self') =>
      let fd := fileno FIFO in
      let tried : outcome unit * list write_action :=
        match writing with
        | Some ERR =>
            (Raises (FiFoFileError (Error_writing_to_fifo_file path ERR)),
             [Write fd line (Some ERR)])
        | None =>
            if flush then
              match flushing with
              | Some ERR =>
                  (Raises (FiFoFileError (Error_writing_to_fifo_file path ERR)),
                   [Write fd line None; Flush fd (Some ERR)])
              | None => (Returns tt, [Write fd line None; Flush fd None])
              end
            else (Returns tt, [Write fd line None])
        end in
      (* finally: FIFO.close() *)
      (match closing with Some ERR => Raises ERR | None => tried.1 end,
       self',
       OpenToWrite path mode_w opening :: tried.2 ++ [CloseWritten fd closing])
  end.

Definition is_close (a : write_action) : bool :=
  match a with CloseWritten _ _ => true | _ => false end.

(** ** What a run shows *)

Definition yielded (a : action) : list str :=
  match a with Yield item => [item] | _ => [] end.

(** The items of a run, in order. *)
Definition items (t : list action) : list str := flat_map yielded t.

Definition line_read (a : action) : list str :=
  match a with ReadFrom _ _ (Returns (c :: l)) => [c :: l] | _ => [] end.

(** The non-empty texts the reads of a run returned, in order. *)
Definition lines_read (t : list action) : list str := flat_map line_read t.

(** The descriptor a generator holds open. *)
Definition held (fr : frame) : option Z :=
  match fr with
  | Polling FIFO _ | Reading FIFO _ _ | Yielded FIFO _ _ => Some FIFO
  | _ => None
  end.

Definition on_live (live : option Z) (fd : Z) : bool :=
  match live with Some fd' => bool_decide (fd = fd') | None => false end.

(** The discipline of descriptors along a run: a file is opened only
    when none is held, and registering, unregistering, reading and
    closing concern the descriptor that is held.  The result is the
    descriptor held at the end, [None] if the discipline is broken. *)
Fixpoint handles (live : option Z) (t : list action) : option (option Z) :=
  match t with
  | [] => Some live
  | Open _ _ (open_ok f) :: t' =>
      match live with
      | None => handles (Some (fileno f)) t'
      | Some _ => None
      end
  | Close fd :: t' => if on_live live fd then handles None t' else None
  | Register fd _ _ :: t' | Unregister fd _ :: t' | ReadFrom fd _ _ :: t' =>
      if on_live live fd then handles live t' else None
  | _ :: t' => handles live t'
  end.

(** An action that uses what the object was configured with. *)
Definition as_configured (self0 : FiFoFile) (a : action) : Prop :=
  match a with
  | Open path mode _ => path = fifo_file_path self0 /\ mode = mode_r
  | Poll timeout _ | PollFails timeout _ => timeout = polling_timeout self0
  | Register _ eventmask _ => eventmask = read_only
  | Sleep seconds => seconds = 1
  | _ => True
  end.

(** A poll that reports nothing readable. *)
Definition nothing_readable (i : input) : Prop :=
  match i with
  | polled ready => forall fd event, ready !! fd = Some event -> readable event = false
  | _ => True
  end.

(** The object as [__init__] leaves it. *)
Definition constructed (fifo_file_path : str) (polling_timeout : float) : FiFoFile :=
  {| stop_event := false; fifo_file_path := fifo_file_path;
     polling_timeout := polling_timeout; fifo := None |}.

Definition in_int_range (mode : Z) : Prop := -2147483648 <= mode <= 2147483647.

Definition is_stop (i : input) : bool :=
  match i with stop => true | _ => false end.

(** A read the generator is blocked in. *)
Definition pending_read (fr : frame) : nat :=
  match fr with Reading _ _ _ => 1 | _ => 0 end.

Definition not_raised (fr : frame) : bool :=
  match fr with Raised _ => false | _ => true end.

Definition came_back (r : option exception) : bool :=
  match r with None => true | Some _ => false end.

Definition opened_ok (r : open_result) : bool :=
  match r with open_ok _ => true | open_fails _ => false end.

Definition returned_normally (r : outcome unit) : bool :=
  match r with Returns _ => true | Raises _ => false end.

(** ** Stripping *)

Lemma lstrip_spaces (ws rest : str) :
  forallb isspace ws = true -> lstrip (ws ++ rest) = lstrip rest.
Proof.
  induction ws as [|c ws IH]; simpl; intros H; [reflexivity|].
  apply andb_prop in H as [Hc Hws]. rewrite Hc. auto.
Qed.

Lemma lstrip_all_spaces (ws : str) : forallb isspace ws = true -> lstrip ws = [].
Proof.
  intros H. rewrite <- (app_nil_r ws). rewrite lstrip_spaces by exact H. reflexivity.
Qed.

Lemma forallb_isspace_rev (ws : str) :
  forallb isspace ws = true -> forallb isspace (rev ws) = true.
Proof.
  rewrite !forallb_forall. intros H c Hc. apply H. apply in_rev. exact Hc.
Qed.

Lemma strip_sandwich (leading core trailing : str) :
  forallb isspace leading = true ->
  forallb isspace trailing = true ->
  edge_free core = true ->
  strip (leading ++ core ++ trailing) = core.
Proof.
  intros Hl Ht Hc. unfold strip, rstrip.
  rewrite lstrip_spaces by exact Hl.
  destruct core as [|c core'].
  - simpl. rewrite (lstrip_all_spaces trailing Ht). reflexivity.
  - unfold edge_free in Hc.
    destruct (rev (c :: core')) as [|d before] eqn:Hrev.
    + apply (f_equal (@length N)) in Hrev. rewrite length_rev in Hrev. discriminate.
    + apply andb_prop in Hc as [Hc Hd].
      apply negb_true_iff in Hc, Hd.
      change ((c :: core') ++ trailing) with (c :: (core' ++ trailing)).
      cbn [lstrip]. rewrite Hc.
      change (c :: (core' ++ trailing)) with ((c :: core') ++ trailing).
      rewrite rev_app_distr.
      rewrite lstrip_spaces by (apply forallb_isspace_rev; exact Ht).
      rewrite Hrev. cbn [lstrip]. rewrite Hd.
      rewrite <- Hrev. apply rev_involutive.
Qed.

Lemma strip_line_feed (text : str) :
  edge_free text = true -> strip (text ++ [LF]) = text.
Proof.
  intros H. apply (strip_sandwich [] text [LF]); auto.
Qed.

Lemma lstrip_split (s : str) :
  exists leading, s = (leading ++ lstrip s)%list /\ forallb isspace leading = true.
Proof.
  induction s as [|c s (leading & Heq & Hsp)]; [exists []; auto|].
  cbn [lstrip]. destruct (isspace c) eqn:Hc.
  - exists (c :: leading). cbn. rewrite Hc, Hsp, <- Heq. auto.
  - exists []. auto.
Qed.

Lemma lstrip_head (s : str) :
  match lstrip s with c :: _ => isspace c = false | [] => True end.
Proof.
  induction s as [|c s IH]; [exact I|].
  cbn [lstrip]. destruct (isspace c) eqn:Hc; [exact IH|exact Hc].
Qed.

Lemma rstrip_split (s : str) :
  exists trailing, s = (rstrip s ++ trailing)%list /\ forallb isspace trailing = true.
Proof.
  destruct (lstrip_split (rev s)) as (leading & Heq & Hsp).
  exists (rev leading). split; [|apply forallb_isspace_rev, Hsp].
  unfold rstrip. rewrite <- rev_app_distr, <- Heq. symmetry. apply rev_involutive.
Qed.

(** Every text is whitespace, then its stripped text, then whitespace. *)
Lemma strip_split (s : str) :
  exists leading trailing,
    s = (leading ++ strip s ++ trailing)%list
    /\ forallb isspace leading = true /\ forallb isspace trailing = true.
Proof.
  destruct (lstrip_split s) as (leading & Heq & Hl).
  destruct (rstrip_split (lstrip s)) as (trailing & Heq' & Ht).
  exists leading, trailing. unfold strip. rewrite <- Heq', <- Heq. auto.
Qed.

Lemma strip_edge_free (s : str) : edge_free (strip s) = true.
Proof.
  destruct (rstrip_split (lstrip s)) as (trailing & Heq & _).
  pose proof (lstrip_head s) as Hfirst.
  pose proof (lstrip_head (rev (lstrip s))) as Hlast.
  unfold strip. unfold rstrip in *.
  set (k := lstrip (rev (lstrip s))) in *.
  unfold edge_free.
  destruct (rev k) as [|c after_c] eqn:Hk; [reflexivity|].
  assert (rev (c :: after_c) = k) as -> by (rewrite <- Hk; apply rev_involutive).
  destruct k as [|d after_d]; [reflexivity|].
  rewrite Heq in Hfirst. cbn in Hfirst. rewrite Hfirst, Hlast. reflexivity.
Qed.

Lemma without_trailing_newline_app (text : str) :
  without_trailing_newline (text ++ [LF]) = text.
Proof.
  unfold without_trailing_newline. rewrite rev_app_distr. simpl.
  apply rev_involutive.
Qed.

(** What a non-empty read does to a generator blocked in it. *)
Lemma step_got_line (self0 : FiFoFile) (g : generator) (FIFO : Z) (poller : gset Z)
    (events : list (Z * Z)) (fifo_line : str) :
  fifo_line <> [] ->
  step (standing self0 g (Reading FIFO poller events)) (got (Returns fifo_line))
  = (standing self0 g (Yielded FIFO poller events),
     [ReadFrom FIFO g (Returns fifo_line); Yield (yielded_item g fifo_line)]).
Proof.
  intros H. destruct fifo_line as [|c l]; [congruence|]. reflexivity.
Qed.

(** C2, as stated, fails: a line that begins with blanks loses them too,
    so the item is not the line less its trailing newline. *)
Lemma strip_line_removes_more_than_newline :
  let fifo_line := (py "  hello world" ++ [LF])%list in
  exists item,
    snd (step (standing a_fifo (readline true) (Reading 3 {[3]} []))
           (got (Returns fifo_line)))
    = [ReadFrom 3 (readline true) (Returns fifo_line); Yield item]
    /\ item = py "hello world"
    /\ without_trailing_newline fifo_line = py "  hello world"
    /\ item <> without_trailing_newline fifo_line.
Proof.
  eexists. split; [vm_compute; reflexivity|].
  split; [reflexivity|]. split; [reflexivity|]. vm_compute. discriminate.
Qed.

(** C2, amended: every non-empty line read by [readline] is yielded, as
    [fifo_line.strip()] (whitespace removed at both ends) when
    [strip_line] is true and unchanged when it is false; the stripped
    item is the line less its trailing newline whenever the text before
    that newline neither begins nor ends with whitespace. *)
Theorem readline_yields_line (self0 : FiFoFile) (FIFO : Z) (poller : gset Z)
    (events : list (Z * Z)) (strip_line : bool) (fifo_line : str)
    (Hline : fifo_line <> []) :
  step (standing self0 (readline strip_line) (Reading FIFO poller events))
       (got (Returns fifo_line))
  = (standing self0 (readline strip_line) (Yielded FIFO poller events),
     [ReadFrom FIFO (readline strip_line) (Returns fifo_line);
      Yield (if strip_line then strip fifo_line else fifo_line)])
  /\ (forall text : str,
        fifo_line = (text ++ [LF])%list -> edge_free text = true ->
        strip fifo_line = without_trailing_newline fifo_line).
Proof.
  split.
  - apply step_got_line, Hline.
  - intros text -> H. rewrite without_trailing_newline_app. apply strip_line_feed, H.
Qed.

(** Round trip of the line "hello world": pulled stripped, and raw. *)
Lemma readline_yields_line_witness :
  snd (step (standing a_fifo (readline true) (Reading 3 {[3]} []))
         (got (Returns (hello_world ++ [LF])%list)))
  = [ReadFrom 3 (readline true) (Returns (hello_world ++ [LF])%list);
     Yield hello_world]
  /\ snd (step (standing a_fifo (readline false) (Reading 3 {[3]} []))
         (got (Returns (hello_world ++ [LF])%list)))
  = [ReadFrom 3 (readline false) (Returns (hello_world ++ [LF])%list);
     Yield (hello_world ++ [LF])%list].
Proof.
  split.
  - destruct (readline_yields_line a_fifo 3 {[3]} [] true (hello_world ++ [LF])%list
                ltac:(discriminate)) as [Hstep Hstrip].
    rewrite Hstep. cbn [snd].
    rewrite (Hstrip hello_world eq_refl eq_refl).
    rewrite without_trailing_newline_app. reflexivity.
  - destruct (readline_yields_line a_fifo 3 {[3]} [] false (hello_world ++ [LF])%list
                ltac:(discriminate)) as [Hstep _].
    rewrite Hstep. reflexivity.
Defined.

(** C10: with [strip_line] true a line is stripped of whitespace at both
    ends before it is yielded: the line is whitespace, the item, and
    whitespace again, the item neither begins nor ends with whitespace,
    so blanks and tabs go with the newline; and a line of whitespace only
    (a lone newline) is yielded as the empty string. *)
Theorem readline_strips_both_ends (self0 : FiFoFile) (FIFO : Z) (poller : gset Z)
    (events : list (Z * Z)) (fifo_line : str)
    (Hline : fifo_line <> []) :
  step (standing self0 (readline true) (Reading FIFO poller events))
       (got (Returns fifo_line))
  = (standing self0 (readline true) (Yielded FIFO poller events),
     [ReadFrom FIFO (readline true) (Returns fifo_line); Yield (strip fifo_line)])
  /\ (exists leading trailing,
        fifo_line = (leading ++ strip fifo_line ++ trailing)%list
        /\ forallb isspace leading = true /\ forallb isspace trailing = true)
  /\ edge_free (strip fifo_line) = true
  /\ (forall leading core trailing,
        fifo_line = (leading ++ core ++ trailing)%list ->
        forallb isspace leading = true -> forallb isspace trailing = true ->
        edge_free core = true -> strip fifo_line = core)
  /\ (forallb isspace fifo_line = true -> strip fifo_line = []).
Proof.
  split; [apply step_got_line, Hline|].
  split; [apply strip_split|]. split; [apply strip_edge_free|]. split.
  - intros leading core trailing -> Hl Ht Hc. apply strip_sandwich; assumption.
  - intros Hsp. rewrite <- (app_nil_r fifo_line).
    apply (strip_sandwich fifo_line [] []); auto.
Qed.

(** A lone newline is yielded as the empty string; blanks and a tab
    around "hello world" go with the newline. *)
Lemma readline_strips_both_ends_witness :
  snd (step (standing a_fifo (readline true) (Reading 3 {[3]} []))
         (got (Returns [LF])))
  = [ReadFrom 3 (readline true) (Returns [LF]); Yield []]
  /\ snd (step (standing a_fifo (readline true) (Reading 3 {[3]} []))
         (got (Returns ([32; 9]%N ++ hello_world ++ [32; LF]%N)%list)))
  = [ReadFrom 3 (readline true) (Returns ([32; 9]%N ++ hello_world ++ [32; LF]%N)%list);
     Yield hello_world].
Proof.
  split.
  - destruct (readline_strips_both_ends a_fifo 3 {[3]} [] [LF] ltac:(discriminate))
      as (Hstep & _ & _ & _ & Hblank).
    rewrite Hstep, (Hblank eq_refl). reflexivity.
  - destruct (readline_strips_both_ends a_fifo 3 {[3]} []
                ([32; 9]%N ++ hello_world ++ [32; LF]%N)%list ltac:(discriminate))
      as (Hstep & _ & _ & Hcore & _).
    rewrite Hstep, (Hcore [32; 9]%N hello_world [32; LF]%N eq_refl eq_refl eq_refl eq_refl).
    reflexivity.
Defined.

Example int_octal_examples (todecimal : N -> option N) :
  int_octal todecimal (py "0o666") = Some 438 /\ int_octal todecimal (py "abc") = None
  /\ int_octal todecimal (py "0o644") = Some 420
  /\ int_octal todecimal (py " 0O7_7 ") = Some 63
  /\ int_octal todecimal (py "0o") = None /\ int_octal todecimal (py "-17") = Some (-15)
  /\ int_octal todecimal (py "8") = None /\ int_octal todecimal (py "7__7") = None
  /\ int_octal todecimal [28; 55]%N = None /\ int_octal todecimal [160; 55]%N = Some 7
  /\ int_octal some_digits [1638; 65303]%N = Some 55.
Proof. vm_compute. repeat split. Qed.

(** ** The locals of a started generator *)

(** With at most the live descriptor registered, a poll reports nothing
    or one event, of that descriptor. *)
Lemma poll_at_most_one (FIFO : Z) (poller : gset Z) (ready : gmap Z Z) :
  poller ⊆ {[FIFO]} ->
  poll poller ready = [] \/
  exists event, poll poller ready = [(FIFO, event)] /\ FIFO ∈ poller.
Proof.
  intros Hsub. unfold poll.
  set (reported := filter (λ p : Z * Z, p.1 ∈ poller) ready).
  assert (Honly : forall fd event, reported !! fd = Some event -> fd = FIFO /\ FIFO ∈ poller).
  { intros fd event H. apply map_lookup_filter_Some in H as [_ Hin]. simpl in Hin.
    assert (fd = FIFO) by set_solver. subst. auto. }
  destruct (reported !! FIFO) as [event|] eqn:Hlook.
  - right. exists event. split; [|exact (proj2 (Honly _ _ Hlook))].
    assert (reported = {[FIFO := event]}) as ->.
    { apply map_eq. intros fd. destruct (decide (fd = FIFO)) as [->|Hne].
      - rewrite Hlook, lookup_singleton_eq. reflexivity.
      - rewrite lookup_singleton_ne by congruence.
        destruct (reported !! fd) as [e|] eqn:Hfd; [|reflexivity].
        destruct (Honly _ _ Hfd). congruence. }
    apply map_to_list_singleton.
  - left.
    assert (reported = ∅) as ->.
    { apply map_eq. intros fd. rewrite lookup_empty.
      destruct (reported !! fd) as [e|] eqn:Hfd; [|reflexivity].
      destruct (Honly _ _ Hfd) as [-> _]. congruence. }
    apply map_to_list_empty.
Qed.

Lemma unregister_registered (FIFO : Z) (poller : gset Z) :
  poller ⊆ {[FIFO]} -> FIFO ∈ poller ->
  unregister poller FIFO = Returns ∅ /\ close ∅ FIFO = ∅.
Proof.
  intros Hsub Hin. unfold unregister, close.
  destruct (decide (FIFO ∈ poller)); [|contradiction].
  split; [f_equal|]; apply set_eq; intros fd;
    rewrite elem_of_difference, elem_of_singleton, elem_of_empty;
    [|tauto].
  split; [|tauto]. intros [Hfd Hne]. apply Hsub in Hfd.
  apply elem_of_singleton in Hfd. contradiction.
Qed.

(** What the [for] loop does with the events of one poll. *)
Lemma for_events_of_poll (flag : bool) (FIFO : Z) (poller : gset Z) (event : Z) :
  poller ⊆ {[FIFO]} -> FIFO ∈ poller ->
  for_events flag FIFO poller [(FIFO, event)] =
    if readable event then
      if flag then
        (Returned, [IsSet true; Unregister FIFO (Returns ∅); Close FIFO; Return])
      else (Reading FIFO poller [], [IsSet false])
    else if hangup event then
      (Reopening ∅ [], [Unregister FIFO (Returns ∅); Close FIFO])
    else (Polling FIFO poller, []).
Proof.
  intros Hsub Hin. destruct (unregister_registered FIFO poller Hsub Hin) as [Hu Hc].
  cbn [for_events]. rewrite Hu, Hc. reflexivity.
Qed.

Lemma for_events_settled (flag : bool) (FIFO : Z) (poller : gset Z) (ready : gmap Z Z) :
  poller ⊆ {[FIFO]} -> settled (for_events flag FIFO poller (poll poller ready)).1.
Proof.
  intros Hsub.
  destruct (poll_at_most_one FIFO poller ready Hsub) as [->|(event & -> & Hin)].
  - exact Hsub.
  - rewrite for_events_of_poll by assumption.
    destruct (readable event); [destruct flag|destruct (hangup event)]; simpl; auto.
Qed.

Lemma register_nothing_registered (f : file) :
  register ∅ f = if pollable f then Returns {[fileno f]} else Raises (OSError EPERM).
Proof.
  unfold register. destruct (pollable f); simpl; [|reflexivity].
  destruct (decide (fileno f ∈ (∅ : gset Z))) as [Hin|_];
    [destruct (not_elem_of_empty (C := gset Z) _ Hin)|].
  f_equal. apply union_empty_r_L.
Qed.

Lemma calling_poll_accepted (timeout : float) (fr : frame * list action) :
  poll_error timeout = None -> calling_poll timeout fr = fr.
Proof. intros H. unfold calling_poll. rewrite H. destruct fr.1; reflexivity. Qed.

(** The call of poll leaves the generator as it is or kills it. *)
Lemma calling_poll_cases (timeout : float) (fr : frame * list action) :
  calling_poll timeout fr = fr
  \/ exists FIFO poller e,
       fr.1 = Polling FIFO poller /\ poll_error timeout = Some e
       /\ calling_poll timeout fr = (Raised e, fr.2 ++ [PollFails timeout e; Raise e]).
Proof.
  unfold calling_poll. destruct fr.1 eqn:Hfr; auto.
  destruct (poll_error timeout) as [e|]; [right|left; reflexivity].
  eauto 6.
Qed.

Lemma calling_poll_settled (timeout : float) (fr : frame * list action) :
  settled fr.1 -> settled (calling_poll timeout fr).1.
Proof.
  intros H.
  destruct (calling_poll_cases timeout fr) as [->|(F & p & e & _ & _ & ->)];
    [exact H|exact I].
Qed.

Lemma step_settled (m : machine) (i : input) :
  settled (at_ m) -> settled (at_ (step m i).1).
Proof.
  destruct m as [s g fr]. unfold step. cbn [self body at_].
  destruct i as [| |[f|ERR]|ready|[[|c l]|e]];
    destruct fr as [| |FIFO poller|FIFO poller events
                    |FIFO poller events|poller events| |e'];
    cbn [_open_fifo]; intros H; try exact H; cbn [settled] in H;
    try match type of H with
        | _ = _ /\ _ = _ => destruct H as [-> ->]
        | _ /\ _ = _ => destruct H as [Hsub ->]
        end;
    try rewrite register_nothing_registered; try destruct (pollable f);
    cbn [at_frame at_ fst snd]; try exact H;
    apply calling_poll_settled; cbn [fst snd settled for_events]; auto;
    try (apply for_events_settled; assumption); set_solver.
Qed.

Lemma run_settled (inputs : list input) (m : machine) :
  settled (at_ m) -> settled (at_ (run m inputs).1).
Proof.
  revert m. induction inputs as [|i inputs IH]; intros m H; [exact H|].
  cbn [run]. pose proof (step_settled m i H) as H1.
  destruct (step m i) as [m1 t1]. specialize (IH m1 H1).
  destruct (run m1 inputs) as [m2 t2]. exact IH.
Qed.

Lemma after_settled (self0 : FiFoFile) (g : generator) (inputs : list input) :
  settled (at_ (after self0 g inputs)).
Proof. apply run_settled. exact I. Qed.

Lemma machine_eta (m : machine) : standing (self m) (body m) (at_ m) = m.
Proof. destruct m; reflexivity. Qed.

Lemma run_app (inputs1 inputs2 : list input) (m : machine) :
  run m (inputs1 ++ inputs2) =
    let (m1, t1) := run m inputs1 in
    let (m2, t2) := run m1 inputs2 in (m2, t1 ++ t2).
Proof.
  revert m. induction inputs1 as [|i inputs1 IH]; intros m.
  - cbn. destruct (run m inputs2); reflexivity.
  - cbn [run app]. destruct (step m i) as [m1 t1]. rewrite IH.
    destruct (run m1 inputs1) as [m2 t2]. destruct (run m2 inputs2) as [m3 t3].
    rewrite app_assoc. reflexivity.
Qed.

Lemma step_body (m : machine) (i : input) : body (step m i).1 = body m.
Proof.
  destruct m as [s g fr]. unfold step. cbn [self body at_].
  destruct i as [| |r|ready|r]; destruct fr; try reflexivity.
  - destruct r; cbn [_open_fifo]; [destruct (register _ _)|]; reflexivity.
  - destruct r; cbn [_open_fifo]; [destruct (register _ _)|]; reflexivity.
  - destruct r as [[|c l]|e]; reflexivity.
Qed.

Lemma run_body (inputs : list input) (m : machine) : body (run m inputs).1 = body m.
Proof.
  revert m. induction inputs as [|i inputs IH]; intros m; [reflexivity|].
  cbn [run]. pose proof (step_body m i) as H1.
  destruct (step m i) as [m1 t1]. specialize (IH m1).
  destruct (run m1 inputs) as [m2 t2]. cbn in *. congruence.
Qed.

Lemma after_body (self0 : FiFoFile) (g : generator) (inputs : list input) :
  body (after self0 g inputs) = g.
Proof. apply run_body. Qed.

(** ** The stop flag *)

Lemma stop_reading_set (s : FiFoFile) : stop_event s = true -> stop_reading s = s.
Proof. destruct s; cbn; intros ->; reflexivity. Qed.

Lemma step_stop_again (m : machine) : stop_event (self m) = true -> step m stop = (m, []).
Proof.
  intros H. destruct m as [s g fr]. cbn in *. rewrite stop_reading_set by exact H.
  reflexivity.
Qed.

Lemma step_keeps_flag (m : machine) (i : input) :
  stop_event (self m) = true -> stop_event (self (step m i).1) = true.
Proof.
  destruct m as [s g fr]. unfold step. cbn [self body at_]. intros H.
  destruct i as [| |r|ready|r]; destruct fr; try exact H; try reflexivity.
  - destruct r; cbn [_open_fifo]; [destruct (register _ _)|]; exact H.
  - destruct r; cbn [_open_fifo]; [destruct (register _ _)|]; exact H.
  - destruct r as [[|c l]|e]; exact H.
Qed.

Lemma run_stopped (inputs : list input) (m : machine) :
  stop_event (self m) = true -> run m inputs = run m (first_stop_only true inputs).
Proof.
  revert m. induction inputs as [|i inputs IH]; intros m H; [reflexivity|].
  destruct i as [| |r|ready|r]; cbn [first_stop_only run];
    [pose proof (step_keeps_flag m next H) as H1
    | | pose proof (step_keeps_flag m (opened r) H) as H1
    | pose proof (step_keeps_flag m (polled ready) H) as H1
    | pose proof (step_keeps_flag m (got r) H) as H1 ];
    try (destruct (step m _) as [m1 t1]; rewrite (IH m1 H1); reflexivity).
  rewrite step_stop_again by exact H. rewrite <- (IH m H).
  destruct (run m inputs); reflexivity.
Qed.

Lemma finished_stays (inputs : list input) (s : FiFoFile) (g : generator) (fr : frame) :
  finished fr = true -> stop_event s = true ->
  run (standing s g fr) inputs = (standing s g fr, []).
Proof.
  intros Hfin Hflag. induction inputs as [|i inputs IH]; [reflexivity|].
  cbn [run].
  assert (step (standing s g fr) i = (standing s g fr, [])) as ->.
  { destruct i; try (destruct fr; try discriminate; reflexivity).
    apply step_stop_again. exact Hflag. }
  rewrite IH. reflexivity.
Qed.

(** ** One step inside the loop *)

(** A generator is inside its loop only if [poll] accepts the timeout of
    its object. *)
Lemma step_accepted (m : machine) (i : input) :
  (in_loop (at_ m) = true -> poll_error (polling_timeout (self m)) = None) ->
  in_loop (at_ (step m i).1) = true ->
  poll_error (polling_timeout (self (step m i).1)) = None.
Proof.
  destruct m as [s g fr]. unfold step. cbn [self body at_].
  destruct i as [| |[f|ERR]|ready|[[|c l]|e]];
    destruct fr as [| |FIFO poller|FIFO poller events
                    |FIFO poller events|poller events| |e'];
    cbn [_open_fifo]; try destruct (register _ f);
    unfold at_frame; cbn [self at_ fst snd set_fifo stop_reading polling_timeout in_loop];
    intros Hok Hloop; try discriminate; try (apply Hok; reflexivity).
  unfold calling_poll in Hloop. cbn [fst] in Hloop.
  destruct (poll_error (polling_timeout s)); [discriminate|reflexivity].
Qed.

Lemma run_accepted (inputs : list input) (m : machine) :
  (in_loop (at_ m) = true -> poll_error (polling_timeout (self m)) = None) ->
  in_loop (at_ (run m inputs).1) = true ->
  poll_error (polling_timeout (self (run m inputs).1)) = None.
Proof.
  revert m. induction inputs as [|i inputs IH]; intros m H; [exact H|].
  cbn [run]. pose proof (step_accepted m i H) as H1.
  destruct (step m i) as [m1 t1]. specialize (IH m1 H1).
  destruct (run m1 inputs) as [m2 t2]. exact IH.
Qed.

Lemma after_accepted (self0 : FiFoFile) (g : generator) (inputs : list input) :
  in_loop (at_ (after self0 g inputs)) = true ->
  poll_error (polling_timeout (self (after self0 g inputs))) = None.
Proof. apply run_accepted. discriminate. Qed.

Lemma step_in_loop (m : machine) (i : input) :
  settled (at_ m) -> in_loop (at_ m) = true ->
  poll_error (polling_timeout (self m)) = None ->
  in_loop (at_ (step m i).1) = true
  \/ (stop_event (self m) = true /\
      exists FIFO poller event,
        at_ m = Polling FIFO poller /\ visited m i = [(FIFO, event)] /\
        readable event = true /\
        step m i = (standing (self m) (body m) Returned,
                    [Poll (polling_timeout (self m)) [(FIFO, event)]; IsSet true;
                     Unregister FIFO (Returns ∅); Close FIFO; Return])).
Proof.
  destruct m as [s g fr]. unfold step, visited. cbn [self body at_].
  intros Hs Hloop Hok. revert Hs.
  destruct i as [| |[f|ERR]|ready|[[|c l]|e]];
    destruct fr as [| |FIFO poller|FIFO poller events
                    |FIFO poller events|poller events| |e']; try discriminate;
    cbn [_open_fifo]; try destruct (register _ f);
    unfold at_frame; cbn [self set_fifo polling_timeout];
    rewrite ?(calling_poll_accepted _ _ Hok); cbn [at_ fst snd in_loop];
    try (intros _; left; reflexivity);
    try (intros [_ ->]; left; reflexivity);
    try (intros [-> ->]; left; reflexivity).
  intros Hsub.
  destruct (poll_at_most_one FIFO poller ready Hsub) as [->|(event & -> & Hin)];
    [left; reflexivity|].
  rewrite for_events_of_poll by assumption.
  destruct (readable event) eqn:Hr; [destruct (stop_event s) eqn:Hf|].
  - right. split; [reflexivity|]. exists FIFO, poller, event. auto.
  - left. reflexivity.
  - left. destruct (hangup event); reflexivity.
Qed.

Lemma step_got_nothing (s : FiFoFile) (g : generator) (FIFO : Z) (poller : gset Z)
    (r : outcome str) :
  poll_error (polling_timeout s) = None ->
  match r with Returns (_ :: _) => False | _ => True end ->
  step (standing s g (Reading FIFO poller [])) (got r)
  = (standing s g (Polling FIFO poller), [ReadFrom FIFO g r]).
Proof.
  intros Hok Hr. unfold step. cbn [self body at_ standing].
  destruct r as [[|c l]|e]; [|destruct Hr|];
    unfold at_frame; rewrite calling_poll_accepted by exact Hok; reflexivity.
Qed.

(** ** Properties of the polling loop *)

(** C8: a read that returns the empty string yields nothing, raises
    nothing and does not end the sequence: the generator goes back to
    polling. *)
Theorem empty_read_yields_nothing (self0 : FiFoFile) (g : generator)
    (inputs : list input) (FIFO : Z) (poller : gset Z) (events : list (Z * Z))
    (Hat : at_ (after self0 g inputs) = Reading FIFO poller events) :
  let m := after self0 g inputs in
  step m (got (Returns []))
  = (standing (self m) g (Polling FIFO poller), [ReadFrom FIFO g (Returns [])]).
Proof.
  intros m. pose proof (after_settled self0 g inputs) as Hs.
  pose proof (after_body self0 g inputs) as Hb.
  pose proof (after_accepted self0 g inputs) as Hok. fold m in Hat, Hs, Hb, Hok.
  destruct m as [s g' fr]. cbn in Hat, Hs, Hb, Hok. subst fr g'.
  destruct Hs as [_ ->]. apply step_got_nothing; [exact (Hok eq_refl)|exact I].
Qed.

Lemma empty_read_yields_nothing_witness :
  let m := after not_started (readline true)
             [next; opened (open_ok a_pipe); polled {[3 := EPOLLIN]}] in
  step m (got (Returns []))
  = (standing (self m) (readline true) (Polling 3 {[3]}),
     [ReadFrom 3 (readline true) (Returns [])]).
Proof.
  apply (empty_read_yields_nothing not_started (readline true)
           [next; opened (open_ok a_pipe); polled {[3 := EPOLLIN]}] 3 {[3]} []).
  vm_compute. reflexivity.
Defined.

(** C6: a readable or priority event met with the stop flag set makes the
    generator unregister and close its descriptor and return; that pull
    yields nothing, and nothing is yielded, or done, ever after. *)
Theorem stop_at_readable_event_ends_sequence (self0 : FiFoFile) (g : generator)
    (inputs : list input) (FIFO : Z) (poller : gset Z) (ready : gmap Z Z)
    (fd event : Z) (rest : list (Z * Z)) (later : list input)
    (Hat : at_ (after self0 g inputs) = Polling FIFO poller)
    (Hflag : stop_event (self (after self0 g inputs)) = true)
    (Hpoll : poll poller ready = (fd, event) :: rest)
    (Hreadable : readable event = true) :
  let m := after self0 g inputs in
  step m (polled ready)
  = (standing (self m) g Returned,
     [Poll (polling_timeout (self m)) [(FIFO, event)]; IsSet true;
      Unregister FIFO (Returns ∅); Close FIFO; Return])
  /\ run (standing (self m) g Returned) later = (standing (self m) g Returned, []).
Proof.
  intros m. pose proof (after_settled self0 g inputs) as Hs.
  pose proof (after_body self0 g inputs) as Hb. fold m in Hat, Hs, Hb, Hflag.
  split; [|apply finished_stays; [reflexivity|exact Hflag]].
  destruct m as [s g' fr]. cbn in Hat, Hs, Hb, Hflag. subst fr g'. cbn in Hs.
  unfold step. cbn [self body at_].
  destruct (poll_at_most_one FIFO poller ready Hs) as [Hnone|(event' & Hone & Hin)];
    [congruence|].
  rewrite Hone in Hpoll. injection Hpoll as <- -> <-.
  rewrite Hone, for_events_of_poll by assumption.
  rewrite Hreadable, Hflag. reflexivity.
Qed.

Lemma stop_at_readable_event_ends_sequence_witness :
  let m := after not_started (readline true) [next; stop; opened (open_ok a_pipe)] in
  step m (polled {[3 := EPOLLIN]})
  = (standing (self m) (readline true) Returned,
     [Poll one_second [(3, EPOLLIN)]; IsSet true; Unregister 3 (Returns ∅); Close 3; Return])
  /\ run (standing (self m) (readline true) Returned)
       [next; polled {[3 := EPOLLIN]}; got (Returns hello_world); next]
     = (standing (self m) (readline true) Returned, []).
Proof.
  apply (stop_at_readable_event_ends_sequence not_started (readline true)
           [next; stop; opened (open_ok a_pipe)] 3 {[3]} {[3 := EPOLLIN]}
           3 EPOLLIN [] [next; polled {[3 := EPOLLIN]}; got (Returns hello_world); next]);
    vm_compute; reflexivity.
Defined.

(** C9: [stop_reading] is idempotent.  Called once or more, the flag is
    the same; and in any run, whatever the moments of the calls, every
    call after the first changes nothing: same final generator, same
    actions, hence no second release of the descriptor. *)
Theorem stop_reading_idempotent (m : machine) (inputs : list input) (n : nat) :
  Nat.iter (S n) stop_reading (self m) = stop_reading (self m)
  /\ run m (repeat stop (S n) ++ inputs) = run m (stop :: inputs)
  /\ run m inputs = run m (first_stop_only false inputs).
Proof.
  split; [|split].
  - induction n as [|n IH]; [reflexivity|].
    change (Nat.iter (S (S n)) stop_reading (self m))
      with (stop_reading (Nat.iter (S n) stop_reading (self m))).
    rewrite IH. reflexivity.
  - induction n as [|n IH]; [reflexivity|].
    change (repeat stop (S (S n)) ++ inputs) with (stop :: (repeat stop (S n) ++ inputs)).
    cbn [run]. destruct (step m stop) as [m1 t1] eqn:Hstep.
    assert (Hflag : stop_event (self m1) = true).
    { destruct m; cbn in Hstep. injection Hstep as <- _. reflexivity. }
    change (repeat stop (S n) ++ inputs) with (stop :: (repeat stop n ++ inputs)).
    cbn [run]. rewrite step_stop_again by exact Hflag.
    clear IH. induction n as [|n IH]; cbn [repeat app run].
    + destruct (run m1 inputs); reflexivity.
    + rewrite step_stop_again by exact Hflag.
      destruct (run m1 (repeat stop n ++ inputs)) as [m2 t2].
      destruct (run m1 inputs) as [m3 t3]. cbn in IH |- *. exact IH.
  - revert m. induction inputs as [|i inputs IH]; intros m; [reflexivity|].
    destruct i as [| |r|ready|r]; cbn [first_stop_only run];
      try (destruct (step m _) as [m1 t1]; rewrite (IH m1); reflexivity).
    destruct (step m stop) as [m1 t1] eqn:Hstep.
    assert (Hflag : stop_event (self m1) = true).
    { destruct m; cbn in Hstep. injection Hstep as <- _. reflexivity. }
    rewrite (run_stopped inputs m1 Hflag). reflexivity.
Qed.

(** C4, as stated, fails: [poller.poll(self.polling_timeout)] is called
    bare at the head of the loop, and a timeout that [poll] rejects (an
    infinity, or more milliseconds than a C int holds) ends the generator
    there by the exception, with the stop flag clear and no event at all. *)
Lemma rejected_timeout_ends_sequence :
  let forever := {| stop_event := false; fifo_file_path := py "/var/log/a_valid_fifo.fifo";
                    polling_timeout := infinity false; fifo := None |} in
  let a_month := {| stop_event := false; fifo_file_path := py "/var/log/a_valid_fifo.fifo";
                    polling_timeout := finite 2600000; fifo := None |} in
  run (generate forever (readline true)) [next; opened (open_ok a_pipe)]
  = (standing (set_fifo forever 3) (readline true) (Raised OverflowError),
     [Open (fifo_file_path forever) mode_r (open_ok a_pipe);
      Register 3 read_only (Returns {[3]});
      PollFails (infinity false) OverflowError; Raise OverflowError])
  /\ at_ (run (generate a_month (read 4096)) [next; opened (open_ok a_pipe)]).1
     = Raised OverflowError.
Proof. vm_compute. split; reflexivity. Qed.

(** C4, amended: a generator ends inside its loop in two ways only.
    If [poll] rejects the timeout of the object, the first call of
    [poll], on entering the loop, raises and ends it.  Otherwise the
    generator is inside the loop only with a timeout that [poll] accepts,
    and there it finishes only by the [return] of the readable/priority
    branch, taken with the stop flag set: a step that visits no event (a
    timeout) and a step on an event that is not readable (hangup, error)
    stay in the loop; a failed round of the reopening loop sleeps and
    tries again whatever the flag is, and no step taken while reopening
    leaves the loop. *)
Theorem sequence_ends_by_stop_or_rejected_timeout (self0 : FiFoFile)
    (g : generator) (inputs : list input) (i : input) :
  let m := after self0 g inputs in
  (in_loop (at_ m) = true ->
     poll_error (polling_timeout (self m)) = None
     /\ (finished (at_ (step m i).1) = true ->
          stop_event (self m) = true /\
          exists FIFO poller event,
            at_ m = Polling FIFO poller /\ visited m i = [(FIFO, event)] /\
            readable event = true /\
            step m i = (standing (self m) g Returned,
                        [Poll (polling_timeout (self m)) [(FIFO, event)]; IsSet true;
                         Unregister FIFO (Returns ∅); Close FIFO; Return]))
     /\ (visited m i = [] -> in_loop (at_ (step m i).1) = true)
     /\ (forall fd event, visited m i = [(fd, event)] -> readable event = false ->
           in_loop (at_ (step m i).1) = true)
     /\ (forall poller events, at_ m = Reopening poller events ->
           in_loop (at_ (step m i).1) = true /\
           forall ERR,
             step m (opened (open_fails ERR))
             = (m, [Open (fifo_file_path (self m)) mode_r (open_fails ERR); Sleep 1])))
  /\ (forall f e,
        at_ m = Opening -> pollable f = true ->
        poll_error (polling_timeout (self m)) = Some e ->
        step m (opened (open_ok f))
        = (standing (set_fifo (self m) (fileno f)) g (Raised e),
           [Open (fifo_file_path (self m)) mode_r (open_ok f);
            Register (fileno f) read_only (Returns {[fileno f]});
            PollFails (polling_timeout (self m)) e; Raise e])).
Proof.
  intros m. pose proof (after_settled self0 g inputs) as Hs.
  pose proof (after_body self0 g inputs) as Hb.
  pose proof (after_accepted self0 g inputs) as Hacc. fold m in Hs, Hb, Hacc.
  split.
  - intros Hloop. pose proof (Hacc Hloop) as Hok.
    pose proof (step_in_loop m i Hs Hloop Hok) as Hstep. rewrite Hb in Hstep.
    assert (Hnot : forall fr, in_loop fr = true -> finished fr = true -> False)
      by (intros []; discriminate).
    split; [exact Hok|]. split; [|split; [|split]].
    + intros Hfin. destruct Hstep as [Hin|Hret]; [destruct (Hnot _ Hin Hfin)|exact Hret].
    + intros Hnone. destruct Hstep as [Hin|(_ & F & p & e & _ & Hv & _)];
        [exact Hin|congruence].
    + intros fd event Hv Hr.
      destruct Hstep as [Hin|(_ & F & p & e & _ & Hv' & Hr' & _)];
        [exact Hin|congruence].
    + intros poller events Hat. split.
      * destruct Hstep as [Hin|(_ & F & p & e & Hat' & _)]; [exact Hin|congruence].
      * intros ERR. destruct m as [s g' fr]. cbn in Hat. subst fr. reflexivity.
  - intros f e Hat Hpipe He. destruct m as [s g' fr]. cbn in Hat, Hb, He |- *.
    subst fr g'. unfold step. cbn [self body at_ _open_fifo].
    rewrite register_nothing_registered, Hpipe.
    unfold at_frame, calling_poll. cbn [fst snd set_fifo polling_timeout].
    rewrite He. reflexivity.
Qed.

Lemma sequence_ends_by_stop_or_rejected_timeout_witness :
  (let m := after not_started (readline true) [next; stop; opened (open_ok a_pipe)] in
   stop_event (self m) = true /\
   exists FIFO poller event,
     at_ m = Polling FIFO poller /\
     visited m (polled {[3 := EPOLLIN]}) = [(FIFO, event)] /\
     readable event = true /\
     step m (polled {[3 := EPOLLIN]})
     = (standing (self m) (readline true) Returned,
        [Poll (polling_timeout (self m)) [(FIFO, event)]; IsSet true;
         Unregister FIFO (Returns ∅); Close FIFO; Return]))
  /\ (let never := {| stop_event := false; fifo_file_path := py "/var/log/a_valid_fifo.fifo";
                      polling_timeout := nan; fifo := None |} in
      let m := after never (readline true) [next] in
      step m (opened (open_ok a_pipe))
      = (standing (set_fifo (self m) 3) (readline true) (Raised ValueError),
         [Open (fifo_file_path (self m)) mode_r (open_ok a_pipe);
          Register 3 read_only (Returns {[3]});
          PollFails (polling_timeout (self m)) ValueError; Raise ValueError])).
Proof.
  split.
  - apply (sequence_ends_by_stop_or_rejected_timeout not_started (readline true)
             [next; stop; opened (open_ok a_pipe)] (polled {[3 := EPOLLIN]}));
      vm_compute; reflexivity.
  - apply (sequence_ends_by_stop_or_rejected_timeout
             {| stop_event := false; fifo_file_path := py "/var/log/a_valid_fifo.fifo";
                polling_timeout := nan; fifo := None |}
             (readline true) [next] next); reflexivity.
Defined.

(** ** Hangup *)

Lemma run_failed_rounds (failures : list errno) (s : FiFoFile) (g : generator)
    (poller : gset Z) (events : list (Z * Z)) :
  run (standing s g (Reopening poller events))
      (map (fun ERR => opened (open_fails ERR)) failures)
  = (standing s g (Reopening poller events), failed_rounds (fifo_file_path s) failures).
Proof.
  induction failures as [|ERR failures IH]; [reflexivity|].
  cbn [map run]. change (step (standing s g (Reopening poller events)) (opened (open_fails ERR)))
    with (standing s g (Reopening poller events),
          [Open (fifo_file_path s) mode_r (open_fails ERR); Sleep 1]).
  cbv iota beta. rewrite IH. reflexivity.
Qed.

(** C5, as stated, fails for an event that reports an error and no
    hangup: neither branch of the loop takes it, the descriptor stays
    registered and open, nothing is reopened. *)
Lemma error_event_is_not_handled :
  hangup EPOLLERR = false /\ readable EPOLLERR = false /\
  step (standing a_fifo (readline true) (Polling 3 {[3]})) (polled {[3 := EPOLLERR]})
  = (standing a_fifo (readline true) (Polling 3 {[3]}), [Poll one_second [(3, EPOLLERR)]]).
Proof. vm_compute. repeat split. Qed.

(** C5, amended: take an event of the poll loop that has neither the
    readable nor the priority bit.  If it has the hangup bit the sequence
    goes on: the descriptor is unregistered and closed, the same path is
    opened again, with a sleep of one second after each failed attempt,
    until an open succeeds; the new descriptor (of a pipe, which the
    poller accepts) is registered for the same interest set and the
    generator polls again.  If it has not (an error alone), the event is
    not handled: nothing is unregistered, closed or reopened, and the
    generator polls again on the same descriptor. *)
Theorem hangup_reopens_the_pipe (self0 : FiFoFile) (g : generator)
    (inputs : list input) (FIFO : Z) (poller : gset Z) (ready : gmap Z Z)
    (fd event : Z) (rest : list (Z * Z)) (failures : list errno) (f : file)
    (Hat : at_ (after self0 g inputs) = Polling FIFO poller)
    (Hpoll : poll poller ready = (fd, event) :: rest)
    (Hreadable : readable event = false) :
  let m := after self0 g inputs in
  let path := fifo_file_path (self m) in
  (hangup event = true -> pollable f = true ->
   run m (polled ready :: map (fun ERR => opened (open_fails ERR)) failures
            ++ [opened (open_ok f)])
   = (standing (set_fifo (self m) (fileno f)) g (Polling (fileno f) {[fileno f]}),
      [Poll (polling_timeout (self m)) [(FIFO, event)];
       Unregister FIFO (Returns ∅); Close FIFO]
      ++ failed_rounds path failures
      ++ [Open path mode_r (open_ok f);
          Register (fileno f) read_only (Returns {[fileno f]})]))
  /\ (hangup event = false ->
      step m (polled ready)
      = (m, [Poll (polling_timeout (self m)) [(FIFO, event)]])).
Proof.
  intros m path. pose proof (after_settled self0 g inputs) as Hs.
  pose proof (after_body self0 g inputs) as Hb.
  pose proof (after_accepted self0 g inputs) as Hok. fold m in Hat, Hs, Hb, Hok.
  subst path. destruct m as [s g' fr]. cbn in Hat, Hs, Hb, Hok. subst fr g'.
  cbn in Hs. specialize (Hok eq_refl). cbn [self].
  destruct (poll_at_most_one FIFO poller ready Hs) as [Hnone|(event' & Hone & Hin)];
    [congruence|].
  rewrite Hone in Hpoll. injection Hpoll as <- -> <-.
  split.
  - intros Hhangup Hpipe.
    cbn [run]. unfold step at 1. cbn [self body at_].
    rewrite Hone, for_events_of_poll by assumption.
    rewrite Hreadable, Hhangup. unfold at_frame at 1, calling_poll. cbn [fst snd].
    fold (standing s g (Reopening ∅ [])).
    rewrite run_app, run_failed_rounds.
    cbn [run]. unfold step. cbn [self body at_ standing _open_fifo].
    rewrite register_nothing_registered, Hpipe.
    unfold at_frame. cbn [set_fifo polling_timeout for_events].
    rewrite calling_poll_accepted by exact Hok.
    cbn [fst snd app]. reflexivity.
  - intros Hhangup. unfold step. cbn [self body at_].
    rewrite Hone, for_events_of_poll by assumption.
    rewrite Hreadable, Hhangup. unfold at_frame.
    rewrite calling_poll_accepted by exact Hok. reflexivity.
Qed.

Lemma hangup_reopens_the_pipe_witness :
  let m := after not_started (readline true) [next; opened (open_ok a_pipe)] in
  run m [polled {[3 := EPOLLHUP]}; opened (open_fails ENOENT);
         opened (open_fails EACCES); opened (open_ok another_pipe)]
  = (standing (set_fifo (self m) 4) (readline true) (Polling 4 {[4]}),
     [Poll one_second [(3, EPOLLHUP)]; Unregister 3 (Returns ∅); Close 3;
      Open (fifo_file_path not_started) mode_r (open_fails ENOENT); Sleep 1;
      Open (fifo_file_path not_started) mode_r (open_fails EACCES); Sleep 1;
      Open (fifo_file_path not_started) mode_r (open_ok another_pipe);
      Register 4 read_only (Returns {[4]})])
  /\ step m (polled {[3 := EPOLLERR]}) = (m, [Poll one_second [(3, EPOLLERR)]]).
Proof.
  split.
  - apply (hangup_reopens_the_pipe not_started (readline true)
             [next; opened (open_ok a_pipe)] 3 {[3]} {[3 := EPOLLHUP]} 3 EPOLLHUP []
             [ENOENT; EACCES] another_pipe);
      vm_compute; reflexivity.
  - apply (hangup_reopens_the_pipe not_started (readline true)
             [next; opened (open_ok a_pipe)] 3 {[3]} {[3 := EPOLLERR]} 3 EPOLLERR []
             [] a_pipe);
      vm_compute; reflexivity.
Defined.

(** After a hangup, a reopened file that the poller refuses is slept on
    once and taken as the live descriptor all the same: the generator
    polls on with nothing registered. *)
Remark reopened_file_refused_by_poller :
  let m := after not_started (readline true) [next; opened (open_ok a_pipe)] in
  run m [polled {[3 := EPOLLHUP]}; opened (open_ok {| fileno := 4; pollable := false |})]
  = (standing (set_fifo (self m) 4) (readline true) (Polling 4 ∅),
     [Poll one_second [(3, EPOLLHUP)]; Unregister 3 (Returns ∅); Close 3;
      Open (fifo_file_path not_started) mode_r
        (open_ok {| fileno := 4; pollable := false |});
      Register 4 read_only (Raises (OSError EPERM)); Sleep 1]).
Proof. vm_compute. reflexivity. Qed.

(** ** Construction and the FIFO check *)

Lemma init_accepts_what_stat_finds (int8 : str -> option Z) (fs : filesystem) (path create_mode : str)
    (create_if_not_exists : bool) (timeout : float) (st_mode : Z) :
  os_stat fs path = Returns st_mode ->
  __init__ int8 fs path create_if_not_exists create_mode timeout
  = Returns ({| stop_event := false; fifo_file_path := path;
                polling_timeout := timeout; fifo := None |}, fs).
Proof. intros H. unfold __init__. rewrite H. reflexivity. Qed.

Lemma init_without_create (int8 : str -> option Z) (fs : filesystem) (path create_mode : str)
    (timeout : float) (e : exception) :
  os_stat fs path = Raises e ->
  __init__ int8 fs path false create_mode timeout
  = Raises (FiFoFileError (is_not_a_valid_fifo_file path)).
Proof. intros H. unfold __init__. rewrite H. reflexivity. Qed.

Lemma init_invalid_mode (int8 : str -> option Z) (fs : filesystem) (path create_mode : str)
    (timeout : float) (e : exception) :
  os_stat fs path = Raises e -> int8 create_mode = None ->
  __init__ int8 fs path true create_mode timeout
  = Raises (FiFoFileError (Invalid_create_mode create_mode)).
Proof. intros H Hm. unfold __init__. rewrite H, Hm. reflexivity. Qed.

Lemma init_mkfifo_fails (int8 : str -> option Z) (fs : filesystem) (path create_mode : str)
    (timeout : float) (e ERR : exception) (mode : Z) :
  os_stat fs path = Raises e -> int8 create_mode = Some mode ->
  os_mkfifo fs path = Raises ERR ->
  __init__ int8 fs path true create_mode timeout = Raises ERR
  /\ create_fifo_file int8 fs path create_mode false
     = Raises (FiFoFileError (Failed_to_create_fifo_file path ERR)).
Proof.
  intros H Hm Hf. unfold __init__, create_fifo_file, os_path_exists.
  rewrite H, Hm, Hf. split; reflexivity.
Qed.

Lemma is_fifo_file_iff_stat (fs : filesystem) (path : str) :
  is_fifo_file fs path = true <-> exists st_mode, os_stat fs path = Returns st_mode.
Proof.
  unfold is_fifo_file. destruct (os_stat fs path) as [st_mode|e]; split.
  - eauto.
  - reflexivity.
  - discriminate.
  - intros [st_mode H]. discriminate.
Qed.

(** C1: the constructor is given, without auto-creation, the path of a
    regular file.  [os.stat] succeeds, [S_ISFIFO] is false of what it
    finds, and the object is built all the same: no [FiFoFileError]. *)
Theorem init_accepts_a_regular_file (int8 : str -> option Z) (create_mode : str)
    (timeout : float) :
  os_stat a_filesystem plain_txt = Returns (Z.lor S_IFREG 420)
  /\ S_ISFIFO (Z.lor S_IFREG 420) = false
  /\ __init__ int8 a_filesystem plain_txt false create_mode timeout
     = Returns ({| stop_event := false; fifo_file_path := plain_txt;
                   polling_timeout := timeout; fifo := None |}, a_filesystem).
Proof.
  assert (H : os_stat a_filesystem plain_txt = Returns (Z.lor S_IFREG 420))
    by (vm_compute; reflexivity).
  split; [exact H|]. split; [reflexivity|].
  exact (init_accepts_what_stat_finds int8 _ _ _ _ _ _ H).
Qed.

(** C3: [is_fifo_file] answers [True] for the path of a regular file:
    it reports that [os.stat] succeeded, not what [S_ISFIFO] says. *)
Theorem is_fifo_file_accepts_a_regular_file :
  os_stat a_filesystem plain_txt = Returns (Z.lor S_IFREG 420)
  /\ S_ISFIFO (Z.lor S_IFREG 420) = false
  /\ is_fifo_file a_filesystem plain_txt = true.
Proof. vm_compute. repeat split. Qed.

(** C7: with auto-creation, on a path that [os.stat] and [os.mkfifo] are
    both refused, the constructor lets the [OSError] of [os.mkfifo]
    through, where [create_fifo_file] wraps it in a [FiFoFileError]; a
    mode that [int] rejects does raise the [FiFoFileError] of an invalid
    create mode. *)
Theorem init_does_not_wrap_mkfifo_error (todecimal : N -> option N) :
  os_stat a_filesystem locked_fifo = Raises (OSError EACCES)
  /\ __init__ (int_octal todecimal) a_filesystem locked_fifo true (py "0o666") one_second
     = Raises (OSError EACCES)
  /\ create_fifo_file (int_octal todecimal) a_filesystem locked_fifo (py "0o666") false
     = Raises (FiFoFileError (Failed_to_create_fifo_file locked_fifo (OSError EACCES)))
  /\ __init__ (int_octal todecimal) a_filesystem locked_fifo true (py "abc") one_second
     = Raises (FiFoFileError (Invalid_create_mode (py "abc"))).
Proof. vm_compute. repeat split. Qed.

(** ** Creating the node *)

Lemma fifo_type_bits (perm : Z) :
  Z.land (Z.lor S_IFIFO (Z.land perm 4095)) S_IFMT = S_IFIFO.
Proof.
  rewrite Z.land_lor_distr_l, <- Z.land_assoc.
  change (Z.land 4095 S_IFMT) with 0. rewrite Z.land_0_r. reflexivity.
Qed.

Lemma mkfifo_type_bits (mask : Z) :
  Z.land (Z.lor S_IFIFO (Z.land 438 mask)) S_IFMT = S_IFIFO.
Proof.
  rewrite Z.land_lor_distr_l, (Z.land_comm 438 mask), <- Z.land_assoc.
  change (Z.land 438 S_IFMT) with 0. rewrite Z.land_0_r. reflexivity.
Qed.

Lemma os_stat_fails (fs : filesystem) (path : str) (e : exception) :
  os_stat fs path = Raises e -> path ∈ denied fs \/ nodes fs !! path = None.
Proof.
  unfold os_stat. destruct (decide (path ∈ denied fs)); [auto|].
  destruct (nodes fs !! path); [discriminate|auto].
Qed.

(** [os.mkfifo] and then [os.chmod], on a free path the process may use. *)
Lemma mkfifo_then_chmod (fs : filesystem) (path : str) (mode : Z) :
  path ∉ denied fs -> nodes fs !! path = None -> refused fs !! path = None ->
  in_int_range mode ->
  exists fs1,
    os_mkfifo fs path = Returns fs1 /\
    os_chmod fs1 path mode
    = Returns {| nodes := <[path := Z.lor S_IFIFO (Z.land mode 4095)]> (nodes fs);
                 denied := denied fs; refused := refused fs;
                 umask := umask fs |}.
Proof.
  intros Hd Hn Hr [Hlo Hhi]. unfold os_mkfifo, os_chmod.
  destruct (decide (path ∈ denied fs)); [contradiction|]. rewrite Hn, Hr.
  eexists. split; [reflexivity|]. cbn [nodes denied umask].
  destruct (decide (path ∈ denied fs)); [contradiction|].
  assert ((-2147483648 <=? mode) && (mode <=? 2147483647) = true) as ->
    by (apply andb_true_intro; split; apply Z.leb_le; assumption).
  cbn [negb]. rewrite lookup_insert_eq, mkfifo_type_bits, insert_insert_eq.
  reflexivity.
Qed.

Lemma os_mkfifo_returns (fs fs1 : filesystem) (path : str) :
  os_mkfifo fs path = Returns fs1 ->
  (path ∉ denied fs) /\ nodes fs !! path = None /\ refused fs !! path = None.
Proof.
  unfold os_mkfifo. destruct (decide (path ∈ denied fs)); [discriminate|].
  destruct (nodes fs !! path); [discriminate|].
  destruct (refused fs !! path); [discriminate|auto].
Qed.

Lemma os_chmod_returns (fs fs2 : filesystem) (path : str) (mode : Z) :
  os_chmod fs path mode = Returns fs2 -> in_int_range mode.
Proof.
  unfold os_chmod, in_int_range.
  destruct ((-2147483648 <=? mode) && (mode <=? 2147483647)) eqn:H; [|discriminate].
  intros _. apply andb_prop in H as [H1 H2]. split; apply Z.leb_le; assumption.
Qed.

Lemma created_node_is_seen (fs : filesystem) (path : str) (mode : Z) :
  path ∉ denied fs ->
  os_stat {| nodes := <[path := Z.lor S_IFIFO (Z.land mode 4095)]> (nodes fs);
             denied := denied fs; refused := refused fs;
                 umask := umask fs |} path
  = Returns (Z.lor S_IFIFO (Z.land mode 4095)).
Proof.
  intros Hd. unfold os_stat. cbn [nodes denied].
  destruct (decide (path ∈ denied fs)); [contradiction|].
  rewrite lookup_insert_eq. reflexivity.
Qed.

(** X1: without auto-creation the constructor succeeds exactly when
    [is_fifo_file] answers [True], and then leaves the file system as it
    was; otherwise it raises the "is not a valid fifo file" error. *)
Theorem init_agrees_with_is_fifo_file (int8 : str -> option Z) (fs : filesystem)
    (path create_mode : str) (timeout : float) :
  __init__ int8 fs path false create_mode timeout
  = if is_fifo_file fs path then Returns (constructed path timeout, fs)
    else Raises (FiFoFileError (is_not_a_valid_fifo_file path)).
Proof.
  unfold __init__, is_fifo_file. destruct (os_stat fs path); reflexivity.
Qed.

(** X2: whatever [create_fifo_file] raises is a [FiFoFileError]. *)
Theorem create_fifo_file_raises_only_FiFoFileError (int8 : str -> option Z)
    (fs : filesystem) (path create_mode : str) (raise_if_exists : bool) (e : exception)
    (Hraises : create_fifo_file int8 fs path create_mode raise_if_exists = Raises e) :
  exists msg, e = FiFoFileError msg.
Proof.
  unfold create_fifo_file in Hraises.
  destruct (int8 create_mode) as [mode|]; [|injection Hraises as <-; eauto].
  destruct (raise_if_exists && os_path_exists fs path);
    [injection Hraises as <-; eauto|].
  destruct (os_path_exists fs path); [discriminate|].
  destruct (os_mkfifo fs path) as [fs1|ERR]; [|injection Hraises as <-; eauto].
  destruct (os_chmod fs1 path mode) as [fs2|ERR];
    [discriminate|injection Hraises as <-; eauto].
Qed.

Lemma create_fifo_file_raises_only_FiFoFileError_witness :
  exists msg, OSError EACCES <> FiFoFileError msg
    /\ FiFoFileError (Failed_to_create_fifo_file locked_fifo (OSError EACCES))
       = FiFoFileError msg.
Proof.
  destruct (create_fifo_file_raises_only_FiFoFileError (int_octal some_digits) a_filesystem
              locked_fifo (py "0o666") false
              (FiFoFileError (Failed_to_create_fifo_file locked_fifo (OSError EACCES)))
              ltac:(vm_compute; reflexivity)) as [msg Hmsg].
  exists msg. split; [discriminate|exact Hmsg].
Defined.

(** X3: on a free path that the process may use and where the system
    lets it make a node (the parent directory is there, is writable, has
    room), with a mode that [int] accepts and that fits a C int,
    [create_fifo_file] returns [True] and
    leaves there a FIFO whose permission bits are those of the mode,
    whatever the umask; no other path changes, and [is_fifo_file] then
    answers [True]. *)
Theorem create_fifo_file_creates (int8 : str -> option Z) (fs : filesystem)
    (path create_mode : str) (raise_if_exists : bool) (mode : Z)
    (Hmode : int8 create_mode = Some mode)
    (Hrange : in_int_range mode)
    (Hallowed : path ∉ denied fs)
    (Hfree : nodes fs !! path = None)
    (Hcreatable : refused fs !! path = None) :
  exists fs',
    create_fifo_file int8 fs path create_mode raise_if_exists = Returns (true, fs')
    /\ nodes fs' !! path = Some (Z.lor S_IFIFO (Z.land mode 4095))
    /\ S_ISFIFO (Z.lor S_IFIFO (Z.land mode 4095)) = true
    /\ (forall other, other <> path -> nodes fs' !! other = nodes fs !! other)
    /\ denied fs' = denied fs /\ umask fs' = umask fs
    /\ is_fifo_file fs' path = true.
Proof.
  destruct (mkfifo_then_chmod fs path mode Hallowed Hfree Hcreatable Hrange)
    as (fs1 & Hmk & Hch).
  eexists. split; [|split; [|split; [|split; [|split; [|split]]]]].
  - unfold create_fifo_file, os_path_exists, os_stat. rewrite Hmode.
    destruct (decide (path ∈ denied fs)); [contradiction|]. rewrite Hfree.
    rewrite andb_false_r, Hmk, Hch. reflexivity.
  - apply lookup_insert_eq.
  - unfold S_ISFIFO. rewrite fifo_type_bits. reflexivity.
  - intros other Hne. cbn [nodes]. apply lookup_insert_ne. congruence.
  - reflexivity.
  - reflexivity.
  - unfold is_fifo_file. rewrite created_node_is_seen by exact Hallowed. reflexivity.
Qed.

Lemma create_fifo_file_creates_witness :
  exists fs',
    create_fifo_file (int_octal some_digits) a_filesystem (py "/tmp/my.fifo") (py "0o600") false
    = Returns (true, fs')
    /\ nodes fs' !! (py "/tmp/my.fifo") = Some (Z.lor S_IFIFO 384)
    /\ nodes fs' !! plain_txt = Some (Z.lor S_IFREG 420).
Proof.
  destruct (create_fifo_file_creates (int_octal some_digits) a_filesystem (py "/tmp/my.fifo")
              (py "0o600") false 384) as (fs' & Hcall & Hnode & _ & Hothers & _).
  - vm_compute. reflexivity.
  - unfold in_int_range. lia.
  - vm_compute. intros H. discriminate H.
  - vm_compute. reflexivity.
  - vm_compute. reflexivity.
  - exists fs'. split; [exact Hcall|]. split; [exact Hnode|].
    rewrite Hothers by (vm_compute; discriminate). vm_compute. reflexivity.
Defined.

(** In a directory that is not there nothing is created:
    [create_fifo_file] wraps the error of [os.mkfifo], the constructor
    lets it through. *)
Example nothing_created_without_directory (todecimal : N -> option N) :
  create_fifo_file (int_octal todecimal) a_filesystem orphan_fifo (py "0o600") false
  = Raises (FiFoFileError (Failed_to_create_fifo_file orphan_fifo (OSError ENOENT)))
  /\ __init__ (int_octal todecimal) a_filesystem orphan_fifo true (py "0o600") one_second
     = Raises (OSError ENOENT).
Proof. vm_compute. split; reflexivity. Qed.

(** X4: what the answer of [create_fifo_file] means.  [True]: the path
    was free and now holds a FIFO with the permission bits of the mode.
    [False]: the path was there already, [raise_if_exists] was off, and
    the file system is as it was. *)
Theorem create_fifo_file_answer (int8 : str -> option Z) (fs fs' : filesystem)
    (path create_mode : str) (raise_if_exists created : bool)
    (Hreturns : create_fifo_file int8 fs path create_mode raise_if_exists
                = Returns (created, fs')) :
  if created then
    nodes fs !! path = None /\ is_fifo_file fs path = false
    /\ exists mode, int8 create_mode = Some mode
         /\ nodes fs' !! path = Some (Z.lor S_IFIFO (Z.land mode 4095))
         /\ is_fifo_file fs' path = true
  else
    fs' = fs /\ is_fifo_file fs path = true /\ raise_if_exists = false.
Proof.
  unfold create_fifo_file, os_path_exists in Hreturns. unfold is_fifo_file.
  destruct (int8 create_mode) as [mode|]; [|discriminate].
  destruct (os_stat fs path) as [st_mode|e] eqn:Hstat.
  - destruct raise_if_exists; [discriminate|]. cbn in Hreturns.
    injection Hreturns as <- <-. auto.
  - rewrite andb_false_r in Hreturns.
    destruct (os_mkfifo fs path) as [fs1|ERR] eqn:Hmk; [|discriminate].
    destruct (os_chmod fs1 path mode) as [fs2|ERR] eqn:Hch; [|discriminate].
    injection Hreturns as <- <-.
    destruct (os_mkfifo_returns _ _ _ Hmk) as (Hallowed & Hfree & Hcreatable).
    pose proof (os_chmod_returns _ _ _ _ Hch) as Hrange.
    destruct (mkfifo_then_chmod fs path mode Hallowed Hfree Hcreatable Hrange)
      as (fs1' & Hmk' & Hch').
    rewrite Hmk in Hmk'. injection Hmk' as <-. rewrite Hch in Hch'.
    injection Hch' as ->.
    split; [exact Hfree|]. split; [reflexivity|]. exists mode.
    split; [reflexivity|]. split; [apply lookup_insert_eq|].
    rewrite created_node_is_seen by exact Hallowed. reflexivity.
Qed.

Lemma create_fifo_file_answer_witness :
  a_filesystem = a_filesystem /\ is_fifo_file a_filesystem plain_txt = true
  /\ false = false.
Proof.
  exact (create_fifo_file_answer (int_octal some_digits) a_filesystem a_filesystem plain_txt
           (py "0o644") false false ltac:(vm_compute; reflexivity)).
Defined.

(** X5: where [os.stat] fails, the constructor with auto-creation does
    what [create_fifo_file] does: the same file system on success, the
    same invalid-mode error, and for a failure of [os.mkfifo] or
    [os.chmod] the bare exception that [create_fifo_file] wraps. *)
Theorem init_creates_like_create_fifo_file (int8 : str -> option Z) (fs : filesystem)
    (path create_mode : str) (raise_if_exists : bool) (timeout : float) (e : exception)
    (Hstat : os_stat fs path = Raises e) :
  __init__ int8 fs path true create_mode timeout
  = match create_fifo_file int8 fs path create_mode raise_if_exists with
    | Returns (_, fs') => Returns (constructed path timeout, fs')
    | Raises (FiFoFileError (Failed_to_create_fifo_file _ ERR)) => Raises ERR
    | Raises e' => Raises e'
    end.
Proof.
  unfold __init__, create_fifo_file, os_path_exists. rewrite Hstat.
  rewrite andb_false_r. cbn [negb].
  destruct (int8 create_mode) as [mode|]; [|reflexivity].
  destruct (os_mkfifo fs path) as [fs1|ERR]; [|reflexivity].
  destruct (os_chmod fs1 path mode) as [fs2|ERR]; reflexivity.
Qed.

Lemma init_creates_like_create_fifo_file_witness :
  __init__ (int_octal some_digits) a_filesystem (py "/tmp/my.fifo") true (py "0o600") one_second
  = match create_fifo_file (int_octal some_digits) a_filesystem (py "/tmp/my.fifo") (py "0o600") true with
    | Returns (_, fs') => Returns (constructed (py "/tmp/my.fifo") one_second, fs')
    | Raises (FiFoFileError (Failed_to_create_fifo_file _ ERR)) => Raises ERR
    | Raises e' => Raises e'
    end.
Proof.
  apply (init_creates_like_create_fifo_file (int_octal some_digits) a_filesystem (py "/tmp/my.fifo")
           (py "0o600") true one_second (OSError ENOENT)).
  vm_compute. reflexivity.
Defined.

(** X6: after any successful construction the path is there:
    [is_fifo_file] answers [True], and constructing again, with whatever
    arguments, succeeds and changes nothing.  The object starts with the
    stop flag clear and nothing open. *)
Theorem constructed_path_is_there (int8 : str -> option Z) (fs fs' : filesystem)
    (path create_mode : str) (create_if_not_exists : bool) (timeout : float)
    (obj : FiFoFile)
    (Hbuilt : __init__ int8 fs path create_if_not_exists create_mode timeout
              = Returns (obj, fs')) :
  obj = constructed path timeout
  /\ is_fifo_file fs' path = true
  /\ forall again_create again_mode again_timeout,
       __init__ int8 fs' path again_create again_mode again_timeout
       = Returns (constructed path again_timeout, fs').
Proof.
  assert (Hseen : obj = constructed path timeout
                  /\ exists st_mode, os_stat fs' path = Returns st_mode).
  { unfold __init__ in Hbuilt.
    destruct (os_stat fs path) as [st_mode|e] eqn:Hstat.
    - injection Hbuilt as <- <-. eauto.
    - destruct create_if_not_exists; [|discriminate]. cbn [negb] in Hbuilt.
      destruct (int8 create_mode) as [mode|]; [|discriminate].
      destruct (os_mkfifo fs path) as [fs1|ERR] eqn:Hmk; [|discriminate].
      destruct (os_chmod fs1 path mode) as [fs2|ERR] eqn:Hch; [|discriminate].
      injection Hbuilt as <- <-.
      destruct (os_mkfifo_returns _ _ _ Hmk) as (Hallowed & Hfree & Hcreatable).
      pose proof (os_chmod_returns _ _ _ _ Hch) as Hrange.
      destruct (mkfifo_then_chmod fs path mode Hallowed Hfree Hcreatable Hrange)
        as (fs1' & Hmk' & Hch').
      rewrite Hmk in Hmk'. injection Hmk' as <-. rewrite Hch in Hch'.
      injection Hch' as ->. split; [reflexivity|].
      eexists. apply created_node_is_seen, Hallowed. }
  destruct Hseen as [-> [st_mode Hstat]]. split; [reflexivity|]. split.
  - unfold is_fifo_file. rewrite Hstat. reflexivity.
  - intros. apply (init_accepts_what_stat_finds int8 _ _ _ _ _ _ Hstat).
Qed.

Lemma constructed_path_is_there_witness :
  exists fs',
    __init__ (int_octal some_digits) a_filesystem (py "/tmp/my.fifo") true (py "0o600") one_second
    = Returns (constructed (py "/tmp/my.fifo") one_second, fs')
    /\ is_fifo_file fs' (py "/tmp/my.fifo") = true.
Proof.
  destruct (__init__ (int_octal some_digits) a_filesystem (py "/tmp/my.fifo") true (py "0o600") one_second)
    as [[obj fs']|e] eqn:Hbuilt; [|vm_compute in Hbuilt; discriminate].
  destruct (constructed_path_is_there (int_octal some_digits) a_filesystem fs' (py "/tmp/my.fifo")
              (py "0o600") true one_second obj Hbuilt) as (-> & Hthere & _).
  exists fs'. split; [reflexivity|exact Hthere].
Defined.

(** ** More on the generators *)

(** X7: a read that raises is swallowed: nothing is yielded or raised,
    the generator goes back to polling, as after an empty read. *)
Theorem read_exception_is_swallowed (self0 : FiFoFile) (g : generator)
    (inputs : list input) (FIFO : Z) (poller : gset Z) (events : list (Z * Z))
    (e : exception)
    (Hat : at_ (after self0 g inputs) = Reading FIFO poller events) :
  let m := after self0 g inputs in
  step m (got (Raises e))
  = (standing (self m) g (Polling FIFO poller), [ReadFrom FIFO g (Raises e)]).
Proof.
  intros m. pose proof (after_settled self0 g inputs) as Hs.
  pose proof (after_body self0 g inputs) as Hb.
  pose proof (after_accepted self0 g inputs) as Hok. fold m in Hat, Hs, Hb, Hok.
  destruct m as [s g' fr]. cbn in Hat, Hs, Hb, Hok. subst fr g'.
  destruct Hs as [_ ->]. apply step_got_nothing; [exact (Hok eq_refl)|exact I].
Qed.

Lemma read_exception_is_swallowed_witness :
  let m := after not_started (read 4096)
             [next; opened (open_ok a_pipe); polled {[3 := EPOLLIN]}] in
  step m (got (Raises (OSError EACCES)))
  = (standing (self m) (read 4096) (Polling 3 {[3]}),
     [ReadFrom 3 (read 4096) (Raises (OSError EACCES))]).
Proof.
  apply (read_exception_is_swallowed not_started (read 4096)
           [next; opened (open_ok a_pipe); polled {[3 := EPOLLIN]}] 3 {[3]} []).
  vm_compute. reflexivity.
Defined.

(** X8: at every moment of a generator at most its live descriptor is
    registered with the poller, so a poll reports at most one event; no
    event is left to visit once one has been taken up; and while the pipe
    is reopened nothing is registered. *)
Theorem only_live_descriptor_is_registered (self0 : FiFoFile) (g : generator)
    (inputs : list input) :
  match at_ (after self0 g inputs) with
  | Polling FIFO poller =>
      poller ⊆ {[FIFO]} /\
      forall ready, poll poller ready = [] \/
                    exists event, poll poller ready = [(FIFO, event)]
  | Reading FIFO poller events | Yielded FIFO poller events =>
      poller ⊆ {[FIFO]} /\ events = []
  | Reopening poller events => poller = ∅ /\ events = []
  | _ => True
  end.
Proof.
  pose proof (after_settled self0 g inputs) as Hs.
  destruct (at_ (after self0 g inputs)); try exact Hs; try exact I.
  split; [exact Hs|]. intros ready.
  destruct (poll_at_most_one FIFO poller ready Hs) as [H|(event & H & _)]; eauto.
Qed.

Lemma for_events_quiet (flag : bool) (FIFO : Z) (poller : gset Z)
    (events : list (Z * Z)) :
  items (for_events flag FIFO poller events).2 = []
  /\ lines_read (for_events flag FIFO poller events).2 = [].
Proof.
  induction events as [|[fd event] events IH]; [auto|].
  cbn [for_events]. destruct (readable event); [destruct flag; auto|].
  destruct (hangup event); [|exact IH].
  destruct (unregister poller FIFO); auto.
Qed.

Lemma items_app (t1 t2 : list action) : items (t1 ++ t2) = (items t1 ++ items t2)%list.
Proof. apply flat_map_app. Qed.

Lemma lines_read_app (t1 t2 : list action) :
  lines_read (t1 ++ t2) = (lines_read t1 ++ lines_read t2)%list.
Proof. apply flat_map_app. Qed.

Lemma calling_poll_quiet (timeout : float) (fr : frame * list action) :
  items (calling_poll timeout fr).2 = items fr.2
  /\ lines_read (calling_poll timeout fr).2 = lines_read fr.2.
Proof.
  destruct (calling_poll_cases timeout fr) as [->|(F & p & e & _ & _ & ->)]; [auto|].
  cbn [snd]. rewrite items_app, lines_read_app, !app_nil_r. auto.
Qed.

Ltac silence_for_events :=
  rewrite ?items_app, ?lines_read_app;
  repeat match goal with
  | |- context [calling_poll ?timeout ?fr] =>
      let H1 := fresh in let H2 := fresh in
      destruct (calling_poll_quiet timeout fr) as [H1 H2];
      progress (rewrite ?H1, ?H2); clear H1 H2
  end;
  cbn [fst snd];
  repeat match goal with
  | |- context [for_events ?flag ?FIFO ?poller ?events] =>
      let H1 := fresh in let H2 := fresh in
      destruct (for_events_quiet flag FIFO poller events) as [H1 H2];
      progress (rewrite ?H1, ?H2); clear H1 H2
  end.

Lemma step_items (m : machine) (i : input) :
  items (step m i).2 = map (yielded_item (body m)) (lines_read (step m i).2).
Proof.
  destruct m as [s g fr]. unfold step. cbn [self body at_].
  destruct i as [| |[f|ERR]|ready|[[|c l]|e]];
    destruct fr as [| |FIFO poller|FIFO poller events
                    |FIFO poller events|poller events| |e'];
    cbn [_open_fifo]; try destruct (register _ f);
    cbn [at_frame snd fst]; silence_for_events; reflexivity.
Qed.

(** X9: nothing read is lost and nothing is made up: the items a
    generator yields are, in order, the non-empty texts its reads
    returned, each passed through the generator's [read_line]. *)
Theorem items_are_the_lines_read (m : machine) (inputs : list input) :
  items (run m inputs).2 = map (yielded_item (body m)) (lines_read (run m inputs).2).
Proof.
  revert m. induction inputs as [|i inputs IH]; intros m; [reflexivity|].
  cbn [run]. pose proof (step_items m i) as Hstep.
  pose proof (step_body m i) as Hbody.
  destruct (step m i) as [m1 t1]. specialize (IH m1).
  destruct (run m1 inputs) as [m2 t2]. cbn [fst snd] in *.
  rewrite items_app, lines_read_app, map_app, Hstep, IH, Hbody. reflexivity.
Qed.

(** ** The object along a run *)

Lemma step_self (m : machine) (i : input) :
  fifo_file_path (self (step m i).1) = fifo_file_path (self m)
  /\ polling_timeout (self (step m i).1) = polling_timeout (self m)
  /\ stop_event (self (step m i).1) = stop_event (self m) || is_stop i.
Proof.
  destruct m as [s g fr]. unfold step. cbn [self body at_].
  destruct i as [| |r|ready|r]; destruct fr; cbn [is_stop at_frame self fst];
    rewrite ?orb_false_r, ?orb_true_r; auto.
  - destruct r; cbn [_open_fifo]; [destruct (register _ _)|]; auto.
  - destruct r; cbn [_open_fifo]; [destruct (register _ _)|]; auto.
  - destruct r as [[|c l]|e]; auto.
Qed.

(** X10: no step of a generator touches the configuration or clears the
    stop flag: after any run the path and the timeout are those of the
    start, and the flag is set exactly if it was set or [stop_reading]
    was called during the run. *)
Theorem run_keeps_configuration (m : machine) (inputs : list input) :
  fifo_file_path (self (run m inputs).1) = fifo_file_path (self m)
  /\ polling_timeout (self (run m inputs).1) = polling_timeout (self m)
  /\ body (run m inputs).1 = body m
  /\ stop_event (self (run m inputs).1) = stop_event (self m) || existsb is_stop inputs.
Proof.
  revert m. induction inputs as [|i inputs IH]; intros m.
  - cbn. rewrite orb_false_r. auto.
  - cbn [run existsb]. destruct (step_self m i) as (Hp & Ht & Hf).
    pose proof (step_body m i) as Hb.
    destruct (step m i) as [m1 t1]. destruct (IH m1) as (Hp' & Ht' & Hb' & Hf').
    destruct (run m1 inputs) as [m2 t2]. cbn [fst snd] in *.
    rewrite Hp', Ht', Hb', Hf', Hp, Ht, Hb, Hf, orb_assoc. auto.
Qed.

Lemma for_events_as_configured (self0 : FiFoFile) (flag : bool) (FIFO : Z)
    (poller : gset Z) (events : list (Z * Z)) :
  Forall (as_configured self0) (for_events flag FIFO poller events).2.
Proof.
  induction events as [|[fd event] events IH]; [constructor|].
  cbn [for_events]. destruct (readable event); [destruct flag|].
  - repeat constructor.
  - repeat constructor.
  - destruct (hangup event); [|exact IH].
    destruct (unregister poller FIFO); repeat constructor.
Qed.

Lemma calling_poll_as_configured (self' self0 : FiFoFile) (fr : frame * list action) :
  polling_timeout self' = polling_timeout self0 ->
  Forall (as_configured self0) fr.2 ->
  Forall (as_configured self0) (calling_poll (polling_timeout self') fr).2.
Proof.
  intros Ht H.
  destruct (calling_poll_cases (polling_timeout self') fr)
    as [->|(F & p & e & _ & _ & ->)]; [exact H|].
  cbn [snd]. apply Forall_app. split; [exact H|]. repeat constructor. exact Ht.
Qed.

Lemma step_as_configured (m : machine) (i : input) :
  Forall (as_configured (self m)) (step m i).2.
Proof.
  destruct m as [s g fr]. unfold step. cbn [self body at_].
  destruct i as [| |[f|ERR]|ready|[[|c l]|e]];
    destruct fr as [| |FIFO poller|FIFO poller events
                    |FIFO poller events|poller events| |e'];
    cbn [_open_fifo]; try destruct (register _ f);
    cbn [at_frame snd fst]; try (constructor; fail);
    (apply Forall_app; split;
     [repeat constructor
     |apply calling_poll_as_configured;
      [reflexivity
      |first [apply for_events_as_configured | repeat constructor]]]).
Qed.

Lemma as_configured_same (s1 s2 : FiFoFile) (a : action) :
  fifo_file_path s1 = fifo_file_path s2 -> polling_timeout s1 = polling_timeout s2 ->
  as_configured s1 a -> as_configured s2 a.
Proof. intros Hp Ht. destruct a; cbn; rewrite <- ?Hp, <- ?Ht; auto. Qed.

(** X11: a generator opens nothing but the path of its object, for
    reading, registers for nothing but the interest set [read_only],
    polls with the timeout of its object, and sleeps only for one
    second. *)
Theorem generator_uses_its_configuration (m : machine) (inputs : list input) :
  Forall (as_configured (self m)) (run m inputs).2.
Proof.
  revert m. induction inputs as [|i inputs IH]; intros m; [constructor|].
  cbn [run]. pose proof (step_as_configured m i) as H1.
  destruct (step_self m i) as (Hp & Ht & _).
  destruct (step m i) as [m1 t1]. specialize (IH m1).
  destruct (run m1 inputs) as [m2 t2]. cbn [fst snd] in *.
  apply Forall_app. split; [exact H1|].
  eapply Forall_impl; [exact IH|].
  intros a. apply as_configured_same; assumption.
Qed.

(** ** Stopping *)

Lemma step_quiet_stays (m : machine) (i : input) :
  settled (at_ m) -> in_loop (at_ m) = true ->
  poll_error (polling_timeout (self m)) = None -> nothing_readable i ->
  in_loop (at_ (step m i).1) = true.
Proof.
  intros Hs Hloop Hok Hquiet.
  destruct (step_in_loop m i Hs Hloop Hok)
    as [Hin|(_ & FIFO & poller & event & Hat & Hv & Hr & _)]; [exact Hin|].
  exfalso. unfold visited in Hv. rewrite Hat in Hv.
  destruct i as [| |[f|ERR]|ready|[[|c l]|e]]; try discriminate.
  assert (Hin : (FIFO, event) ∈ poll poller ready) by (rewrite Hv; left).
  unfold poll in Hin. apply elem_of_map_to_list in Hin.
  apply map_lookup_filter_Some in Hin as [Hready _].
  specialize (Hquiet FIFO event Hready). congruence.
Qed.

Lemma run_quiet_stays (inputs : list input) (m : machine) :
  settled (at_ m) -> in_loop (at_ m) = true ->
  poll_error (polling_timeout (self m)) = None -> Forall nothing_readable inputs ->
  in_loop (at_ (run m inputs).1) = true.
Proof.
  revert m. induction inputs as [|i inputs IH]; intros m Hs Hloop Hok Hquiet;
    [exact Hloop|].
  inversion Hquiet as [|? ? Hi Hrest]; subst.
  cbn [run]. pose proof (step_settled m i Hs) as Hs1.
  pose proof (step_quiet_stays m i Hs Hloop Hok Hi) as Hl1.
  destruct (step_self m i) as (_ & Ht & _).
  destruct (step m i) as [m1 t1]. cbn [fst] in Ht. rewrite <- Ht in Hok.
  specialize (IH m1 Hs1 Hl1 Hok Hrest).
  destruct (run m1 inputs) as [m2 t2]. exact IH.
Qed.

(** X12: the stop flag alone ends nothing.  As long as no poll reports a
    readable or priority event, a generator inside its loop (where it
    can be only if [poll] accepts its timeout) stays inside it, however
    often [stop_reading] is called and whatever timeouts, hangups and
    reopenings happen. *)
Theorem stop_is_not_seen_without_readable_event (self0 : FiFoFile) (g : generator)
    (inputs more : list input)
    (Hloop : in_loop (at_ (after self0 g inputs)) = true)
    (Hquiet : Forall nothing_readable more) :
  in_loop (at_ (run (after self0 g inputs) more).1) = true.
Proof.
  apply run_quiet_stays;
    [apply after_settled|exact Hloop|apply after_accepted, Hloop|exact Hquiet].
Qed.

Lemma stop_is_not_seen_without_readable_event_witness :
  in_loop (at_ (run (after not_started (readline true) [next; opened (open_ok a_pipe)])
                  [stop; polled ∅; stop; polled {[3 := EPOLLHUP]};
                   opened (open_fails ENOENT); opened (open_ok another_pipe);
                   polled ∅; next]).1) = true.
Proof.
  apply (stop_is_not_seen_without_readable_event not_started (readline true)
           [next; opened (open_ok a_pipe)]).
  - vm_compute. reflexivity.
  - repeat constructor.
    + intros fd event H. rewrite lookup_empty in H. discriminate.
    + intros fd event H. apply lookup_singleton_Some in H as [_ <-]. reflexivity.
    + intros fd event H. rewrite lookup_empty in H. discriminate.
Defined.

Lemma for_events_stopped (FIFO : Z) (poller : gset Z) (events : list (Z * Z)) :
  pending_read (for_events true FIFO poller events).1 = 0%nat.
Proof.
  induction events as [|[fd event] events IH]; [reflexivity|].
  cbn [for_events]. destruct (readable event); [reflexivity|].
  destruct (hangup event); [|exact IH].
  destruct (unregister poller FIFO); reflexivity.
Qed.

Lemma calling_poll_pending (timeout : float) (fr : frame * list action) :
  pending_read (calling_poll timeout fr).1 = pending_read fr.1.
Proof.
  destruct (calling_poll_cases timeout fr) as [->|(F & p & e & Hfr & _ & ->)];
    [reflexivity|].
  rewrite Hfr. reflexivity.
Qed.

Lemma step_after_stop (m : machine) (i : input) :
  stop_event (self m) = true ->
  (length (items (step m i).2) + pending_read (at_ (step m i).1) <= pending_read (at_ m))%nat.
Proof.
  destruct m as [s g fr]. unfold step. cbn [self body at_]. intros ->.
  destruct i as [| |[f|ERR]|ready|[[|c l]|e]];
    destruct fr as [| |FIFO poller|FIFO poller events
                    |FIFO poller events|poller events| |e'];
    cbn [_open_fifo]; try destruct (register _ f);
    cbn [at_frame at_ snd fst]; rewrite ?calling_poll_pending; silence_for_events;
    cbn; rewrite ?for_events_stopped; lia.
Qed.

(** X13: once the stop flag is set a generator yields at most one more
    item, and that only if it was blocked in a read when the flag was
    set; otherwise it never yields again. *)
Theorem at_most_one_item_after_stop (m : machine) (inputs : list input)
    (Hflag : stop_event (self m) = true) :
  (length (items (run m inputs).2) <= pending_read (at_ m))%nat.
Proof.
  revert m Hflag. induction inputs as [|i inputs IH]; intros m Hflag; [cbn; lia|].
  cbn [run]. pose proof (step_after_stop m i Hflag) as Hstep.
  pose proof (step_keeps_flag m i Hflag) as Hflag1.
  destruct (step m i) as [m1 t1]. specialize (IH m1 Hflag1).
  destruct (run m1 inputs) as [m2 t2]. cbn [fst snd] in *.
  rewrite items_app, length_app. lia.
Qed.

Lemma at_most_one_item_after_stop_witness :
  let m := after not_started (readline true)
             [next; opened (open_ok a_pipe); polled {[3 := EPOLLIN]};
              got (Returns hello_world); stop] in
  Nat.le (length (items (run m [next; polled {[3 := EPOLLIN]}; got (Returns hello_world);
                                next; polled {[3 := EPOLLIN]}]).2)) 0.
Proof.
  intros m.
  assert (Hflag : stop_event (self m) = true) by (vm_compute; reflexivity).
  exact (at_most_one_item_after_stop m
           [next; polled {[3 := EPOLLIN]}; got (Returns hello_world);
            next; polled {[3 := EPOLLIN]}] Hflag).
Defined.

Lemma finished_absorbs (inputs : list input) (m : machine) :
  finished (at_ m) = true ->
  at_ (run m inputs).1 = at_ m /\ (run m inputs).2 = [].
Proof.
  revert m. induction inputs as [|i inputs IH]; intros m Hfin; [auto|].
  cbn [run].
  assert (Hstep : at_ (step m i).1 = at_ m /\ (step m i).2 = []).
  { destruct m as [s g fr]. destruct i; destruct fr; try discriminate; auto. }
  destruct (step m i) as [m1 t1]. cbn [fst snd] in Hstep. destruct Hstep as [Hat ->].
  rewrite <- Hat in Hfin. destruct (IH m1 Hfin) as [Hat' Ht].
  destruct (run m1 inputs) as [m2 t2]. cbn [fst snd] in *. subst t2.
  split; [congruence|reflexivity].
Qed.

(** X14: a failure of the first [open] is final.  The first pull raises
    the "Error opening fifo file" error, nothing is polled or retried,
    and whatever happens later the generator does nothing more. *)
Theorem first_open_failure_is_final (self0 : FiFoFile) (g : generator)
    (ERR : errno) (later : list input) :
  let path := fifo_file_path self0 in
  let error := FiFoFileError (Error_opening_fifo_file path (OSError ERR)) in
  at_ (run (generate self0 g) (next :: opened (open_fails ERR) :: later)).1 = Raised error
  /\ (run (generate self0 g) (next :: opened (open_fails ERR) :: later)).2
     = [Open path mode_r (open_fails ERR); Raise error].
Proof.
  intros path error.
  change (next :: opened (open_fails ERR) :: later)
    with ([next; opened (open_fails ERR)] ++ later).
  rewrite run_app.
  change (run (generate self0 g) [next; opened (open_fails ERR)])
    with (standing self0 g (Raised error), [Open path mode_r (open_fails ERR); Raise error]).
  destruct (finished_absorbs later (standing self0 g (Raised error)) eq_refl) as [Hat Ht].
  destruct (run (standing self0 g (Raised error)) later) as [m2 t2].
  cbn [fst snd] in *. subst t2. split; [exact Hat|reflexivity].
Qed.

(** X15: a hangup that comes with readable data is not acted upon: with
    the stop flag clear the generator goes to read, and unregisters,
    closes and reopens nothing. *)
Theorem readable_goes_before_hangup (self0 : FiFoFile) (g : generator)
    (inputs : list input) (FIFO : Z) (poller : gset Z) (ready : gmap Z Z)
    (fd event : Z) (rest : list (Z * Z))
    (Hat : at_ (after self0 g inputs) = Polling FIFO poller)
    (Hflag : stop_event (self (after self0 g inputs)) = false)
    (Hpoll : poll poller ready = (fd, event) :: rest)
    (Hreadable : readable event = true) :
  let m := after self0 g inputs in
  step m (polled ready)
  = (standing (self m) g (Reading FIFO poller []),
     [Poll (polling_timeout (self m)) [(FIFO, event)]; IsSet false]).
Proof.
  intros m. pose proof (after_settled self0 g inputs) as Hs.
  pose proof (after_body self0 g inputs) as Hb. fold m in Hat, Hs, Hb, Hflag.
  destruct m as [s g' fr]. cbn in Hat, Hs, Hb, Hflag. subst fr g'. cbn in Hs.
  unfold step. cbn [self body at_].
  destruct (poll_at_most_one FIFO poller ready Hs) as [Hnone|(event' & Hone & Hin)];
    [congruence|].
  rewrite Hone in Hpoll. injection Hpoll as <- -> <-.
  rewrite Hone, for_events_of_poll by assumption.
  rewrite Hreadable, Hflag. reflexivity.
Qed.

Lemma readable_goes_before_hangup_witness :
  let m := after not_started (readline true) [next; opened (open_ok a_pipe)] in
  hangup (Z.lor EPOLLIN EPOLLHUP) = true /\
  step m (polled {[3 := Z.lor EPOLLIN EPOLLHUP]})
  = (standing (self m) (readline true) (Reading 3 {[3]} []),
     [Poll one_second [(3, Z.lor EPOLLIN EPOLLHUP)]; IsSet false]).
Proof.
  split; [reflexivity|].
  apply (readable_goes_before_hangup not_started (readline true)
           [next; opened (open_ok a_pipe)] 3 {[3]} {[3 := Z.lor EPOLLIN EPOLLHUP]}
           3 (Z.lor EPOLLIN EPOLLHUP) []); vm_compute; reflexivity.
Defined.

(** ** Descriptors *)

Lemma on_live_same (fd : Z) : on_live (Some fd) fd = true.
Proof. cbn. apply bool_decide_eq_true_2. reflexivity. Qed.

Lemma handles_app (t1 t2 : list action) (live : option Z) :
  handles live (t1 ++ t2)
  = match handles live t1 with
    | Some live' => handles live' t2
    | None => None
    end.
Proof.
  revert live. induction t1 as [|a t1 IH]; intros live; [reflexivity|].
  destruct a as [path mode [f|ERR]| | | | | | | | | | |]; cbn [app handles];
    try apply IH.
  - destruct live; [reflexivity|apply IH].
  - destruct (on_live live fd); [apply IH|reflexivity].
  - destruct (on_live live fd); [apply IH|reflexivity].
  - destruct (on_live live fd); [apply IH|reflexivity].
  - destruct (on_live live fd); [apply IH|reflexivity].
Qed.

Lemma for_events_handles (flag : bool) (FIFO : Z) (poller : gset Z)
    (events : list (Z * Z)) :
  not_raised (for_events flag FIFO poller events).1 = true ->
  handles (Some FIFO) (for_events flag FIFO poller events).2
  = Some (held (for_events flag FIFO poller events).1).
Proof.
  induction events as [|[fd event] events IH]; [reflexivity|].
  cbn [for_events]. destruct (readable event); [destruct flag|].
  - intros _. cbn [snd fst handles]. rewrite !on_live_same. reflexivity.
  - reflexivity.
  - destruct (hangup event); [|exact IH].
    destruct (unregister poller FIFO); [|discriminate].
    intros _. cbn [snd fst handles]. rewrite !on_live_same. reflexivity.
Qed.

Lemma calling_poll_alive (timeout : float) (fr : frame * list action) :
  not_raised (calling_poll timeout fr).1 = true -> calling_poll timeout fr = fr.
Proof.
  destruct (calling_poll_cases timeout fr) as [->|(F & p & e & _ & _ & ->)];
    [reflexivity|discriminate].
Qed.

Lemma step_handles (m : machine) (i : input) :
  not_raised (at_ (step m i).1) = true ->
  handles (held (at_ m)) (step m i).2 = Some (held (at_ (step m i).1)).
Proof.
  destruct m as [s g fr]. unfold step. cbn [self body at_].
  destruct i as [| |[f|ERR]|ready|[[|c l]|e]];
    destruct fr as [| |FIFO poller|FIFO poller events
                    |FIFO poller events|poller events| |e'];
    cbn [_open_fifo]; try destruct (register _ f);
    cbn [at_frame at_ snd fst]; intros Halive;
    try (pose proof (calling_poll_alive _ _ Halive) as Heq;
         rewrite Heq in Halive |- *; clear Heq);
    cbn [fst snd held app handles] in *; rewrite ?on_live_same;
    try discriminate; try reflexivity;
    apply for_events_handles; exact Halive.
Qed.

Lemma run_handles (inputs : list input) (m : machine) :
  not_raised (at_ (run m inputs).1) = true ->
  handles (held (at_ m)) (run m inputs).2 = Some (held (at_ (run m inputs).1)).
Proof.
  revert m. induction inputs as [|i inputs IH]; intros m; [reflexivity|].
  cbn [run]. pose proof (step_handles m i) as Hstep.
  destruct (step m i) as [m1 t1] eqn:Hm1. cbn [fst snd] in Hstep.
  pose proof (IH m1) as Hrun. pose proof (finished_absorbs inputs m1) as Habs.
  destruct (run m1 inputs) as [m2 t2]. cbn [fst snd] in *.
  intros Halive. rewrite handles_app.
  destruct (not_raised (at_ m1)) eqn:Hraised.
  - rewrite (Hstep eq_refl). apply Hrun, Halive.
  - destruct (at_ m1) eqn:Hat; try discriminate.
    destruct (Habs eq_refl) as [Hat2 _]. rewrite Hat2 in Halive. discriminate.
Qed.

(** X16: a generator that has not died of an exception has kept to the
    discipline of descriptors: it opens a file only when it holds none,
    it registers, unregisters, reads and closes only the descriptor it
    holds, and it ends holding exactly the descriptor of its frame: none
    once it has returned or while it is reopening. *)
Theorem one_descriptor_at_a_time (self0 : FiFoFile) (g : generator)
    (inputs : list input)
    (Halive : not_raised (at_ (after self0 g inputs)) = true) :
  handles None (run (generate self0 g) inputs).2
  = Some (held (at_ (after self0 g inputs))).
Proof. exact (run_handles inputs (generate self0 g) Halive). Qed.

Lemma one_descriptor_at_a_time_witness :
  handles None
    (run (generate not_started (readline true))
       [next; opened (open_ok a_pipe); polled {[3 := EPOLLHUP]};
        opened (open_fails ENOENT); opened (open_ok another_pipe); stop;
        polled {[4 := EPOLLIN]}]).2
  = Some None.
Proof.
  assert (Halive : not_raised (at_ (after not_started (readline true)
            [next; opened (open_ok a_pipe); polled {[3 := EPOLLHUP]};
             opened (open_fails ENOENT); opened (open_ok another_pipe); stop;
             polled {[4 := EPOLLIN]}])) = true) by (vm_compute; reflexivity).
  exact (one_descriptor_at_a_time not_started (readline true) _ Halive).
Defined.

(** ** Writing *)

(** X17: [writeline] writes the text as it is given, first thing after
    the open, flushes only if asked to and if the write came back, and
    closes the file it opened exactly once, as its last action, whatever
    the write and the flush do; that file is left as [self.__fifo].  If
    the open fails nothing is written or closed and the "Error opening
    fifo file" error is raised. *)
Theorem writeline_closes_what_it_opens (self0 : FiFoFile) (line : str) (flush : bool)
    (f : file) (ERR : errno) (writing flushing closing : option exception) :
  let path := fifo_file_path self0 in
  (writeline self0 line flush (open_ok f) writing flushing closing).2
  = (OpenToWrite path mode_w (open_ok f)
     :: Write (fileno f) line writing
     :: (if flush && came_back writing then [Flush (fileno f) flushing] else [])
     ++ [CloseWritten (fileno f) closing])%list
  /\ (writeline self0 line flush (open_ok f) writing flushing closing).1.2
     = set_fifo self0 (fileno f)
  /\ writeline self0 line flush (open_fails ERR) writing flushing closing
     = (Raises (FiFoFileError (Error_opening_fifo_file path (OSError ERR))), self0,
        [OpenToWrite path mode_w (open_fails ERR)]).
Proof.
  intros path. unfold writeline. cbn [_open_fifo].
  destruct writing, flush, flushing; auto.
Qed.

(** [writeline] returns normally exactly when the open, the write, the
    flush it was asked for and the close all came back. *)
Lemma writeline_succeeds_when_all_calls_do (self0 : FiFoFile) (line : str)
    (flush : bool) (opening : open_result) (writing flushing closing : option exception) :
  returned_normally (writeline self0 line flush opening writing flushing closing).1.1
  = opened_ok opening && came_back writing && (negb flush || came_back flushing)
    && came_back closing.
Proof.
  unfold writeline.
  destruct opening, writing, flush, flushing, closing; reflexivity.
Qed.

(** X18: what [writeline] raises is a [FiFoFileError], unless it is the
    exception of the final [close], which comes out as it is and takes
    the place of any error of the write or the flush. *)
Theorem writeline_raises (self0 : FiFoFile) (line : str) (flush : bool)
    (opening : open_result) (writing flushing closing : option exception)
    (e : exception)
    (Hraises : (writeline self0 line flush opening writing flushing closing).1.1
               = Raises e) :
  match opening, closing with
  | open_ok _, Some ERR => e = ERR
  | _, _ => exists msg, e = FiFoFileError msg
  end.
Proof.
  unfold writeline in Hraises.
  destruct opening, writing, flush, flushing, closing; cbn in Hraises;
    try discriminate; injection Hraises as <-; eauto.
Qed.

Lemma writeline_raises_witness :
  (exists msg,
     FiFoFileError (Error_writing_to_fifo_file (fifo_file_path a_fifo) (OSError EPERM))
     = FiFoFileError msg)
  /\ OSError EACCES = OSError EACCES.
Proof.
  split.
  - exact (writeline_raises a_fifo hello_world true (open_ok a_pipe)
             (Some (OSError EPERM)) None None _ eq_refl).
  - exact (writeline_raises a_fifo hello_world false (open_ok a_pipe)
             (Some (OSError EPERM)) None (Some (OSError EACCES)) _ eq_refl).
Defined.
